(** * Dictionary-app: the lexicon compiler and the lookup client

    A shallow embedding of [scripts/build-wordnet-json.cjs] (the offline
    compiler that turns WordNet data files into [public/dictionary.json])
    and of the state handling of [src/App.jsx] (query, history, recall
    navigation), followed by the properties proved about them.

    Conventions of the embedding.
    - A JavaScript string is a [string]: a sequence of code units, here
      restricted to U+0000..U+00FF (WordNet's files are ASCII).  White
      space and letter case follow ECMAScript on that range.
    - A JavaScript number that holds an integer is a [Z]; [NaN] and
      [undefined] are [None].
    - A plain object used as a map is a [gmap] of its own properties; the
      properties it inherits from [Object.prototype] are modelled where
      the code reads through them ([dictionary[key]]).
    - An array is a [list]; [push] appends, [shift] drops the head. *)

From Stdlib Require Import ZArith Ascii String List Lia Bool.
From stdpp Require Import base gmap strings list fin_maps.

Local Open Scope string_scope.

(** ** JavaScript string primitives used by both programs *)

Module JS.

(** [WhiteSpace] and [LineTerminator] of ECMAScript below U+0100: TAB, LF,
    VT, FF, CR, SP and NBSP.  It is the class of [\s] and of [trim]. *)
Definition isWhiteSpace (c : ascii) : bool :=
  let n := N_of_ascii c in
  ((9 <=? n) && (n <=? 13) || (n =? 32) || (n =? 160))%N.

(** [toLowerCase] on one code unit: A-Z, and the Latin-1 capitals
    U+00C0..U+00DE except the multiplication sign U+00D7. *)
Definition lowerChar (c : ascii) : ascii :=
  let n := N_of_ascii c in
  if ((65 <=? n) && (n <=? 90)
      || (192 <=? n) && (n <=? 222) && negb (n =? 215))%N
  then ascii_of_N (n + 32) else c.

(** [s.toLowerCase()] *)
Fixpoint toLowerCase (s : string) : string :=
  match s with
  | EmptyString => EmptyString
  | String c r => String (lowerChar c) (toLowerCase r)
  end.

(** [s.trimStart()] *)
Fixpoint trimStart (s : string) : string :=
  match s with
  | EmptyString => EmptyString
  | String c r => if isWhiteSpace c then trimStart r else s
  end.

(** [s.trimEnd()] *)
Fixpoint trimEnd (s : string) : string :=
  match s with
  | EmptyString => EmptyString
  | String c r =>
      match trimEnd r with
      | EmptyString => if isWhiteSpace c then EmptyString else String c EmptyString
      | r' => String c r'
      end
  end.

(** [s.trim()] *)
Definition trim (s : string) : string := trimEnd (trimStart s).

(** Truthiness of a string: every string but the empty one. *)
Definition truthy (s : string) : bool :=
  match s with EmptyString => false | String _ _ => true end.

(** [s.startsWith(p)] *)
Definition startsWith (p s : string) : bool := String.prefix p s.

(** [s.replace(/_/g, " ")] *)
Fixpoint replaceUnderscores (s : string) : string :=
  match s with
  | EmptyString => EmptyString
  | String c r =>
      String (if Ascii.eqb c "_" then " "%char else c) (replaceUnderscores r)
  end.

(** Puts [c] in front of the first piece of a split. *)
Definition consHead (c : ascii) (ts : list string) : list string :=
  match ts with
  | t :: ts' => String c t :: ts'
  | [] => [String c EmptyString]
  end.

(** [s.split("\n")] *)
Fixpoint splitLines (s : string) : list string :=
  match s with
  | EmptyString => [EmptyString]
  | String c r =>
      if (N_of_ascii c =? 10)%N then EmptyString :: splitLines r
      else consHead c (splitLines r)
  end.

(** [s.split(/\s+/)]: the pieces between maximal runs of white space.  A
    string that begins (ends) with white space has an empty first (last)
    piece.  [inRun] says that the previous code unit was white space. *)
Fixpoint splitWs (inRun : bool) (s : string) : list string :=
  match s with
  | EmptyString => [EmptyString]
  | String c r =>
      if isWhiteSpace c
      then if inRun then splitWs true r else EmptyString :: splitWs true r
      else consHead c (splitWs false r)
  end.

Definition split_ws (s : string) : list string := splitWs false s.

(** [i = s.indexOf(sep); i >= 0 ? s.slice(i + sep.length) : undefined] *)
Fixpoint sliceAfter (sep s : string) : option string :=
  if String.prefix sep s
  then Some (String.substring (String.length sep)
               (String.length s - String.length sep) s)
  else match s with
       | EmptyString => None
       | String _ r => sliceAfter sep r
       end.

(** Value of a digit of radix 16. *)
Definition hexDigit (c : ascii) : option Z :=
  let n := Z.of_N (N_of_ascii c) in
  if ((48 <=? n) && (n <=? 57))%Z then Some (n - 48)%Z
  else if ((97 <=? n) && (n <=? 102))%Z then Some (n - 87)%Z
  else if ((65 <=? n) && (n <=? 70))%Z then Some (n - 55)%Z
  else None.

(** Value of the longest prefix of hexadecimal digits; [acc] is the value
    read so far, [None] while no digit was read. *)
Fixpoint hexPrefix (acc : option Z) (s : string) : option Z :=
  match s with
  | EmptyString => acc
  | String c r =>
      match hexDigit c with
      | Some d => hexPrefix (Some (16 * default 0 acc + d)%Z) r
      | None => acc
      end
  end.

(** [parseInt(x, 16)], where [None] as argument is [undefined] and [None]
    as result is [NaN]: leading white space is dropped, then a sign, then
    a [0x] or [0X] prefix; the digits that follow are read as far as they
    go.  The result is the mathematical value (a double rounds it from
    2^53 on, which changes neither its sign nor whether it is a number). *)
Definition parseInt16 (x : option string) : option Z :=
  let s := trimStart (default "undefined" x) in
  let '(neg, s1) :=
    match s with
    | String c r =>
        if Ascii.eqb c "-" then (true, r)
        else if Ascii.eqb c "+" then (false, r)
        else (false, s)
    | EmptyString => (false, s)
    end in
  let s2 :=
    match s1 with
    | String c0 (String c1 r) =>
        if Ascii.eqb c0 "0" && (Ascii.eqb c1 "x" || Ascii.eqb c1 "X")
        then r else s1
    | _ => s1
    end in
  match hexPrefix None s2 with
  | Some v => Some (if neg then (- v)%Z else v)
  | None => None
  end.

(** The names every plain object inherits from [Object.prototype]: a read
    [obj[k]] of such a name finds a value (a function, or the prototype
    itself for [__proto__]) when [obj] has no own property [k]. *)
Definition objectPrototypeNames : list string :=
  [ "constructor"; "__defineGetter__"; "__defineSetter__"; "hasOwnProperty";
    "__lookupGetter__"; "__lookupSetter__"; "isPrototypeOf";
    "propertyIsEnumerable"; "toString"; "valueOf"; "__proto__";
    "toLocaleString" ].

Definition inheritedName (k : string) : bool :=
  bool_decide (k ∈ objectPrototypeNames).

End JS.

(** ** The lexicon compiler, [scripts/build-wordnet-json.cjs] *)

Module Build.

(** One meaning of a word: [{ definition, synonyms }]. *)
Record sense := Sense { definition : string; synonyms : list string }.

#[global] Instance sense_eq_dec : EqDecision sense.
Proof. solve_decision. Defined.

(** The part-of-speech keys ["noun"], ["verb"], ["adj"], ["adv"]: the
    categories of the run and the keys of a lexicon entry. *)
Inductive posKey := noun | verb | adj | adv.

#[global] Instance posKey_eq_dec : EqDecision posKey.
Proof. solve_decision. Defined.

Definition posKey_code (p : posKey) : nat :=
  match p with noun => 0 | verb => 1 | adj => 2 | adv => 3 end.

Definition posKey_of_code (n : nat) : posKey :=
  match n with 0 => noun | 1 => verb | 2 => adj | _ => adv end.

#[global] Instance posKey_countable : Countable posKey.
Proof.
  apply (inj_countable' posKey_code posKey_of_code).
  intros []; reflexivity.
Defined.

Definition posKey_name (p : posKey) : string :=
  match p with noun => "noun" | verb => "verb" | adj => "adj" | adv => "adv" end.

(** A lexicon entry: part of speech to senses, in encounter order. *)
Abbreviation entry := (gmap posKey (list sense)).

(** The top-level map: word to entry. *)
Abbreviation lexicon := (gmap string (gmap posKey (list sense))).

(** What the script prints. *)
Inductive message :=
| LogBuilding
| LogBuilt (entries : nat)
| LogWrote (path : string)
| WarnMissingIndex (pos : posKey) (path : string).

Definition isWarning (m : message) : bool :=
  match m with WarnMissingIndex _ _ => true | _ => false end.

(** The state of a run.
    - [dictionary]: the own properties of the object [dictionary = {}],
      which are what [JSON.stringify] writes.
    - [inherited]: the properties the run has put on the objects
      [dictionary] inherits from [Object.prototype], by inherited name
      (for ["constructor"], the properties of the function [Object]).
      A key of the run is lowercased and free of underscores, so the only
      inherited name it can be is ["constructor"] (lemma
      [inherited_lowercase]); what a write through ["__proto__"] would do
      to every other object is therefore not followed.
    - [console]: what was printed, oldest first. *)
Record state := State {
  dictionary : lexicon;
  inherited : lexicon;
  console : list message
}.

Definition initial : state := State ∅ ∅ [].

Definition print (m : message) (st : state) : state :=
  State (dictionary st) (inherited st) (console st ++ [m])%list.

(** [normalize(word)] *)
Definition normalize (word : string) : string := JS.toLowerCase word.

(** The object a read of [dictionary[key]] yields. *)
Inductive target :=
| Own        (** the own property [key]: an entry *)
| Inherited  (** no own property, [key] is inherited: a truthy built-in *)
| Missing.   (** [undefined] *)

Definition resolve (key : string) (st : state) : target :=
  match dictionary st !! key with
  | Some _ => Own
  | None => if JS.inheritedName key then Inherited else Missing
  end.

(** [if (!dictionary[key]) dictionary[key] = {};] *)
Definition ensureWord (key : string) (st : state) : state :=
  match resolve key st with
  | Missing => State (<[key := ∅]> (dictionary st)) (inherited st) (console st)
  | _ => st
  end.

(** The properties of the object [dictionary[key]]; it is read after
    [ensureWord], when [dictionary[key]] is an entry or an inherited
    object. *)
Definition props (key : string) (st : state) : entry :=
  match resolve key st with
  | Own => default ∅ (dictionary st !! key)
  | _ => default ∅ (inherited st !! key)
  end.

(** Writes the properties of the object [dictionary[key]] back. *)
Definition setProps (key : string) (e : entry) (st : state) : state :=
  match resolve key st with
  | Own => State (<[key := e]> (dictionary st)) (inherited st) (console st)
  | _ => State (dictionary st) (<[key := e]> (inherited st)) (console st)
  end.

(** [if (!dictionary[key][posKey]) dictionary[key][posKey] = [];] *)
Definition ensurePos (key : string) (pk : posKey) (st : state) : state :=
  match props key st !! pk with
  | Some _ => st
  | None => setProps key (<[pk := []]> (props key st)) st
  end.

(** [dictionary[key][posKey].push(s)] *)
Definition pushSense (key : string) (pk : posKey) (s : sense) (st : state) : state :=
  setProps key
    (<[pk := (default [] (props key st !! pk) ++ [s])%list]> (props key st)) st.

(** The body of [for (const w of words)]. *)
Definition addWord (words : list string) (gloss : string) (pk : posKey)
    (st : state) (w : string) : state :=
  let key := normalize w in
  let st := ensureWord key st in
  let st := ensurePos key pk st in
  let synonyms :=
    filter (fun x => JS.toLowerCase x <> JS.toLowerCase w) words in
  pushSense key pk (Sense gloss synonyms) st.

(** [for (let i = 0; i < wcnt; i++) { const w = rest[i * 2];
    if (w) words.push(w.replace(/_/g, " ")); }], with [n] iterations left. *)
Fixpoint wordLoop (rest : list string) (n i : nat) (words : list string) : list string :=
  match n with
  | O => words
  | S n' =>
      wordLoop rest n' (S i)
        (match rest !! (i * 2)%nat with
         | Some w => if JS.truthy w then (words ++ [JS.replaceUnderscores w])%list else words
         | None => words
         end)
  end.

Definition extractWords (rest : list string) (wcnt : Z) : list string :=
  wordLoop rest (Z.to_nat wcnt) 0 [].

(** [ss_type] to part-of-speech key; [None] is [null]. *)
Definition posKeyOf (ss_type : option string) : option posKey :=
  match ss_type with
  | Some t =>
      if String.eqb t "n" then Some noun
      else if String.eqb t "v" then Some verb
      else if String.eqb t "a" || String.eqb t "s" then Some adj
      else if String.eqb t "r" then Some adv
      else None
  | None => None
  end.

(** The fields of [const [offset, lex_filenum, ss_type, w_cnt_hex,
    ...rest] = line.split(/\s+/)] that the body uses. *)
Definition ssTypeField (line : string) : option string := JS.split_ws line !! 2%nat.
Definition wordCountField (line : string) : option string := JS.split_ws line !! 3%nat.
Definition restFields (line : string) : list string := drop 4 (JS.split_ws line).

(** [pipeIndex >= 0 ? line.slice(pipeIndex + 3).trim() : ""] *)
Definition glossOf (line : string) : string :=
  match JS.sliceAfter " | " line with
  | Some g => JS.trim g
  | None => ""
  end.

(** The body of [for (const line of lines)] in [parseDataFile]. *)
Definition parseDataLine (st : state) (line : string) : state :=
  if negb (JS.truthy line) || JS.startsWith "  " line then st else
  match JS.parseInt16 (wordCountField line) with
  | None => st
  | Some wcnt =>
      if (wcnt <=? 0)%Z then st else
      let words := extractWords (restFields line) wcnt in
      let gloss := glossOf line in
      match posKeyOf (ssTypeField line) with
      | None => st
      | Some pk => foldl (addWord words gloss pk) st words
      end
  end.

(** The file system the run reads: the text of each file that exists, by
    its path below [dictDir]. *)
Abbreviation files := (gmap string string).

Definition dataPath (pos : posKey) : string := "data." ++ posKey_name pos.
Definition indexPath (pos : posKey) : string := "index." ++ posKey_name pos.

(** [parseDataFile(pos)] *)
Definition parseDataFile (fs : files) (st : state) (pos : posKey) : state :=
  match fs !! dataPath pos with
  | None => st
  | Some text => foldl parseDataLine st (JS.splitLines text)
  end.

(** The body of the loop of [parseIndexFile]. *)
Definition parseIndexLine (pos : posKey) (st : state) (line : string) : state :=
  if negb (JS.truthy line) || JS.startsWith "  " line || JS.startsWith "  " line
  then st else
  match JS.split_ws line !! 0%nat with
  | Some head =>
      if JS.truthy head
      then ensurePos (normalize head) pos (ensureWord (normalize head) st)
      else st
  | None => st
  end.

(** [parseIndexFile(pos, filePath)]; the script defines it and never
    calls it. *)
Definition parseIndexFile (fs : files) (pos : posKey) (filePath : string)
    (st : state) : state :=
  match fs !! filePath with
  | None => print (WarnMissingIndex pos filePath) st
  | Some text => foldl (parseIndexLine pos) st (JS.splitLines text)
  end.

Definition OUT : string := "public/dictionary.json".

(** The run: the four categories in order, then the report. *)
Definition main (fs : files) : state :=
  let st := print LogBuilding initial in
  let st := foldl (parseDataFile fs) st [noun; verb; adj; adv] in
  let st := print (LogBuilt (size (dictionary st))) st in
  print (LogWrote OUT) st.

(** The compiled artifact: [JSON.stringify(dictionary)] holds the own
    properties of [dictionary] and nothing else. *)
Definition artifact (fs : files) : lexicon := dictionary (main fs).

End Build.

(** ** The lookup client, [src/App.jsx] *)

Module App.

(** The loaded artifact: the own properties of the parsed JSON object,
    each an entry as the compiler writes it (an object, hence truthy). *)
Abbreviation lexicon := (gmap string (gmap Build.posKey (list Build.sense))).

(** What [dictionary[term]] can yield besides [undefined]. *)
Inductive value :=
| Entry (e : gmap Build.posKey (list Build.sense))  (** an own property *)
| Builtin (name : string).  (** a value inherited from [Object.prototype] *)

(** The component: its [useState] cells, its two [useRef] cells that
    hold data, and a ghost counter of the calls of [doSearch].
    The counter is not in the program; it makes "no search was executed"
    a statement about states. *)
Record state := State {
  dictionary : option lexicon;
  loading : bool;
  word : string;
  result : option value;
  error : string;
  history : list string;
  historyRef : list string;
  historyIndex : Z;
  searches : nat
}.

Definition initial : state :=
  {| dictionary := None; loading := true; word := ""; result := None;
     error := ""; history := []; historyRef := []; historyIndex := (-1)%Z;
     searches := 0 |}.

Definition setDictionary (d : option lexicon) (st : state) : state :=
  State d (loading st) (word st) (result st) (error st) (history st)
    (historyRef st) (historyIndex st) (searches st).
Definition setLoading (b : bool) (st : state) : state :=
  State (dictionary st) b (word st) (result st) (error st) (history st)
    (historyRef st) (historyIndex st) (searches st).
Definition setWord (w : string) (st : state) : state :=
  State (dictionary st) (loading st) w (result st) (error st) (history st)
    (historyRef st) (historyIndex st) (searches st).
Definition setResult (r : option value) (st : state) : state :=
  State (dictionary st) (loading st) (word st) r (error st) (history st)
    (historyRef st) (historyIndex st) (searches st).
Definition setError (e : string) (st : state) : state :=
  State (dictionary st) (loading st) (word st) (result st) e (history st)
    (historyRef st) (historyIndex st) (searches st).
Definition setHistory (h : list string) (st : state) : state :=
  State (dictionary st) (loading st) (word st) (result st) (error st) h
    (historyRef st) (historyIndex st) (searches st).
Definition setHistoryRef (h : list string) (st : state) : state :=
  State (dictionary st) (loading st) (word st) (result st) (error st)
    (history st) h (historyIndex st) (searches st).
Definition setHistoryIndex (i : Z) (st : state) : state :=
  State (dictionary st) (loading st) (word st) (result st) (error st)
    (history st) (historyRef st) i (searches st).
Definition countSearch (st : state) : state :=
  State (dictionary st) (loading st) (word st) (result st) (error st)
    (history st) (historyRef st) (historyIndex st) (S (searches st)).

(** [h[i]] for an integer index; [None] is [undefined]. *)
Definition at_index (h : list string) (i : Z) : option string :=
  if (i <? 0)%Z then None else h !! Z.to_nat i.

(** [pushHistory(term)].  [h.push(term)] and [h.shift()] act on the array
    [historyRef.current] itself; [setHistory([...h])] stores a copy. *)
Definition pushHistory (term : string) (st : state) : state :=
  if negb (JS.truthy term) then st else
  let h := historyRef st in
  let st :=
    if (length h =? 0)%nat
       || negb (bool_decide (at_index h (Z.of_nat (length h) - 1) = Some term))
    then
      let h := (h ++ [term])%list in
      let h := if (100 <? length h)%nat then tail h else h in
      setHistory h (setHistoryRef h st)
    else st in
  setHistoryIndex (-1)%Z st.

(** [dictionary[term] || null] on the loaded object. *)
Definition lookupEntry (d : lexicon) (term : string) : option value :=
  match d !! term with
  | Some e => Some (Entry e)
  | None => if JS.inheritedName term then Some (Builtin term) else None
  end.

(** [(w ?? word ?? "").trim().toLowerCase()] *)
Definition termOf (w : option string) (word : string) : string :=
  JS.toLowerCase (JS.trim (default word w)).

(** [doSearch(w)], as the closure made by a render in which the state
    cells [word] and [dictionary] had the values [word0] and [dict0]. *)
Definition doSearch (word0 : string) (dict0 : option lexicon)
    (w : option string) (st : state) : state :=
  let st := countSearch st in
  let term := termOf w word0 in
  if negb (JS.truthy term) then
    setResult None (setError "Please enter a word." st)
  else
    let st := setError "" st in
    match dict0 with
    | None => setError "Dictionary not loaded yet." st
    | Some d =>
        match lookupEntry d term with
        | None => pushHistory term (setError "No match." (setResult None st))
        | Some entry => pushHistory term (setResult (Some entry) st)
        end
    end.

(** [onClickSynonym(syn)] *)
Definition onClickSynonym (syn : string) (st : state) : state :=
  doSearch (word st) (dictionary st) (Some syn) (setWord syn st).

(** [onKey(e)], for [e.key = key]; [focused] is
    [document.activeElement === inputRef.current].  The handler is
    registered once, by an effect with an empty dependency list, so the
    [doSearch] it calls is the closure of the first render, in which
    [word] is [""] and [dictionary] is [null]. *)
Definition onKey (key : string) (focused : bool) (st : state) : state :=
  if String.eqb key "Enter" then
    if focused then doSearch "" None None st else st
  else if String.eqb key "Escape" then
    setResult None (setWord "" st)
  else if String.eqb key "ArrowUp" then
    let h := historyRef st in
    if (length h =? 0)%nat then st else
    let st :=
      if (historyIndex st <? Z.of_nat (length h) - 1)%Z
      then setHistoryIndex (historyIndex st + 1)%Z st else st in
    let idx := (Z.of_nat (length h) - 1 - historyIndex st)%Z in
    setWord (default "" (at_index h idx)) st
  else if String.eqb key "ArrowDown" then
    let h := historyRef st in
    if (length h =? 0)%nat then st else
    if (historyIndex st >? 0)%Z then
      let st := setHistoryIndex (historyIndex st - 1)%Z st in
      let idx := (Z.of_nat (length h) - 1 - historyIndex st)%Z in
      setWord (default "" (at_index h idx)) st
    else
      setWord "" (setHistoryIndex (-1)%Z st)
  else st.

(** What can happen to the component. *)
Inductive event :=
| Loaded (json : lexicon)             (** the fetch of the artifact succeeded *)
| LoadFailed                          (** it failed *)
| KeyDown (key : string) (focused : bool)
| Change (value : string)             (** typing in the query field *)
| ClickSearch                         (** the Search button *)
| ClickSynonym (syn : string).        (** a synonym token *)

Definition step (st : state) (e : event) : state :=
  match e with
  | Loaded json => setLoading false (setDictionary (Some json) st)
  | LoadFailed => setLoading false (setError "Failed to load dictionary." st)
  | KeyDown key focused => onKey key focused st
  | Change v => setWord v st
  | ClickSearch => doSearch (word st) (dictionary st) None st
  | ClickSynonym syn => onClickSynonym syn st
  end.

Definition run (es : list event) : state := foldl step initial es.

End App.

(** ** Vocabulary of the properties *)

(** A string that does not begin with white space. *)
Definition startsTight (s : string) : Prop :=
  match s with
  | EmptyString => True
  | String c _ => JS.isWhiteSpace c = false
  end.

(** A history entry as the client means to store it: not empty, and
    equal to its own trimmed, lowercased form. *)
Definition normalized (t : string) : Prop :=
  t <> "" /\ JS.toLowerCase (JS.trim t) = t.

(** What a push makes of the history [h]: the term is appended, and the
    oldest entry leaves when that makes more than 100. *)
Definition appended (h : list string) (term : string) : list string :=
  if (100 <? length (h ++ [term]))%nat then tail (h ++ [term]) else (h ++ [term])%list.

(** Two client states agree on everything but the error message (and the
    ghost counter). *)
Definition sameButError (a b : App.state) : Prop :=
  App.dictionary a = App.dictionary b /\ App.loading a = App.loading b /\
  App.word a = App.word b /\ App.result a = App.result b /\
  App.history a = App.history b /\ App.historyRef a = App.historyRef b /\
  App.historyIndex a = App.historyIndex b.

(** What an operation does to the two copies of the history: nothing, or
    what a push of a normalized term does. *)
Definition writes (st st' : App.state) : Prop :=
  (App.historyRef st' = App.historyRef st /\ App.history st' = App.history st)
  \/ exists term,
       normalized term /\
       App.historyRef st' = App.historyRef (App.pushHistory term st) /\
       App.history st' = App.history (App.pushHistory term st).

(** The invariant of the history: both copies hold normalized terms, at
    most 100 of them. *)
Definition historyInv (st : App.state) : Prop :=
  Forall normalized (App.historyRef st) /\
  Forall normalized (App.history st) /\
  length (App.historyRef st) <= 100.

(** The sense record the compiler stores for the word [w] of a record
    with words [words] and gloss [gloss]. *)
Definition senseFor (words : list string) (gloss w : string) : Build.sense :=
  Build.Sense gloss
    (filter (fun x => JS.toLowerCase x <> JS.toLowerCase w) words).

(** [s] contains the code unit [_]. *)
Fixpoint hasUnderscore (s : string) : bool :=
  match s with
  | EmptyString => false
  | String c r => Ascii.eqb c "_" || hasUnderscore r
  end.

(** The sense records held anywhere in a lexicon. *)
Definition sensesOf (d : Build.lexicon) (r : Build.sense) : Prop :=
  exists k e pk rs, d !! k = Some e /\ e !! pk = Some rs /\ r ∈ rs.

(** A synonym string that leads somewhere: its lowercased form is a key of
    the lexicon, unless that form is [constructor]. *)
Definition linked (d : Build.lexicon) (s : string) : Prop :=
  JS.toLowerCase s = "constructor" \/ is_Some (d !! JS.toLowerCase s).

(** Every synonym held in the lexicon is linked. *)
Definition wellLinked (d : Build.lexicon) : Prop :=
  forall r s, sensesOf d r -> s ∈ Build.synonyms r -> linked d s.

(** The senses of the word [k] as part of speech [pk]; none when the word
    or the part of speech is absent. *)
Definition sensesAt (d : Build.lexicon) (k : string) (pk : Build.posKey)
    : list Build.sense :=
  default [] (d !! k ≫= fun e => e !! pk).

(** A record in the format of the noun file whose second word is
    [constructor], a noun WordNet lists beside [builder]. *)
Definition builder_line : string :=
  "00000002 18 n 02 builder 0 constructor 0 001 @ 00000001 n 0000 | someone who contracts for and supervises construction (as of a building)".

(** The record of the specification's example, as a line of the adjective
    file. *)
Definition happy_line : string :=
  "00000003 00 a 02 happy 0 glad 0 000 | feeling joy".

(** A record with a capitalised word and a multi-word term. *)
Definition paris_line : string :=
  "00000004 15 n 02 Paris 0 City_of_Light 0 000 | the capital and largest city of France".

(** A file system in which only the noun file exists. *)
Definition nouns_only : Build.files := {[ "data.noun" := paris_line ]}.

(** ** Vocabulary of the further properties *)

(** A word as the loop over the tokens produces it: not empty and free of
    underscores. *)
Definition goodWord (w : string) : Prop :=
  w <> "" /\ hasUnderscore w = false.


(** The sense records held under the key [k] of a lexicon. *)
Definition sensesUnder (d : Build.lexicon) (k : string) (r : Build.sense) : Prop :=
  exists e pk rs, d !! k = Some e /\ e !! pk = Some rs /\ r ∈ rs.

(** No two neighbours of the list are equal. *)
Fixpoint noAdjacent (l : list string) : Prop :=
  match l with
  | [] => True
  | x :: r => match r with [] => True | y :: _ => x <> y end /\ noAdjacent r
  end.

(** The recall cursor is "none" (-1) or the position, counted from the
    newest entry, of an entry of the history. *)
Definition cursorOk (st : App.state) : Prop :=
  (-1 <= App.historyIndex st < Z.of_nat (length (App.historyRef st)))%Z.

(** What every sequence of user actions keeps: the state copy mirrors the
    array of the handlers, no two neighbours are equal, the cursor is in
    range. *)
Definition sessionInv (st : App.state) : Prop :=
  App.history st = App.historyRef st /\
  noAdjacent (App.historyRef st) /\
  cursorOk st.

(** The event is not the arrival of the artifact. *)
Definition notLoaded (e : App.event) : Prop :=
  match e with App.Loaded _ => False | _ => True end.

(** [n] presses of the key [key]. *)
Definition presses (key : string) (n : nat) (st : App.state) : App.state :=
  Nat.iter n (fun s => App.step s (App.KeyDown key false)) st.

(** A state of the client in which the artifact compiled from
    [nouns_only] is loaded. *)
Definition loaded_nouns : App.state :=
  App.step App.initial (App.Loaded (Build.artifact nouns_only)).

(** The lexicon [d'] holds what [d] holds and possibly more: every key of
    [d], and under every key and part of speech the senses of [d], in
    their order, before any new one. *)
Definition grows (d d' : Build.lexicon) : Prop :=
  dom d ⊆ dom d' /\
  forall k p, sensesAt d k p `prefix_of` sensesAt d' k p.

(** Synonymy in the lexicon is mutual: when a sense of [k] lists [s] and the
    lowercased [s] is not [constructor], the lowercased [s] has, as the same
    part of speech, a sense with the same definition that lists a spelling
    of [k]. *)
Definition mutual (d : Build.lexicon) : Prop :=
  forall k p r s,
    r ∈ sensesAt d k p -> s ∈ Build.synonyms r ->
    JS.toLowerCase s <> "constructor" ->
    exists r' w,
      r' ∈ sensesAt d (JS.toLowerCase s) p /\
      Build.definition r' = Build.definition r /\
      w ∈ Build.synonyms r' /\ JS.toLowerCase w = k.

(** * Properties *)

(** ** The string primitives on small inputs *)

Example split_ws_pieces :
  JS.split_ws " a  b c " = [""; "a"; "b"; "c"; ""] /\
  JS.splitLines ("x y" ++ String (ascii_of_nat 10) ("z" ++ String (ascii_of_nat 10) ""))
  = ["x y"; "z"; ""].
Proof. split; reflexivity. Qed.

Example parseInt16_values :
  map JS.parseInt16
    [Some "02"; Some "1f"; Some "0x10"; Some "-3"; Some "zz"; Some ""; None; Some "7|"]
  = [Some 2%Z; Some 31%Z; Some 16%Z; Some (-3)%Z; None; None; None; Some 7%Z].
Proof. reflexivity. Qed.

Example sliceAfter_first_bar : JS.sliceAfter " | " "a b | c | d" = Some "c | d".
Proof. reflexivity. Qed.

Example trim_and_lowercase :
  JS.trim "  Ab c  " = "Ab c" /\ JS.toLowerCase "AbC_Z" = "abc_z" /\
  JS.replaceUnderscores "City_of_Light" = "City of Light".
Proof. repeat split; reflexivity. Qed.

(** ** Strings *)

Section StringFacts.

Lemma lowerChar_idem c : JS.lowerChar (JS.lowerChar c) = JS.lowerChar c.
Proof. destruct c as [[] [] [] [] [] [] [] []]; reflexivity. Qed.

Lemma isWhiteSpace_lowerChar c :
  JS.isWhiteSpace (JS.lowerChar c) = JS.isWhiteSpace c.
Proof. destruct c as [[] [] [] [] [] [] [] []]; reflexivity. Qed.

Lemma toLowerCase_idem s : JS.toLowerCase (JS.toLowerCase s) = JS.toLowerCase s.
Proof.
  induction s as [|c r IH]; simpl; [reflexivity|].
  now rewrite lowerChar_idem, IH.
Qed.

Lemma toLowerCase_empty s : JS.toLowerCase s = "" -> s = "".
Proof. destruct s; [reflexivity | discriminate]. Qed.

Lemma trimStart_toLowerCase s :
  JS.trimStart (JS.toLowerCase s) = JS.toLowerCase (JS.trimStart s).
Proof.
  induction s as [|c r IH]; simpl; [reflexivity|].
  rewrite isWhiteSpace_lowerChar.
  destruct (JS.isWhiteSpace c); [exact IH | reflexivity].
Qed.

Lemma trimEnd_toLowerCase s :
  JS.trimEnd (JS.toLowerCase s) = JS.toLowerCase (JS.trimEnd s).
Proof.
  induction s as [|c r IH]; simpl; [reflexivity|].
  rewrite IH, isWhiteSpace_lowerChar.
  destruct (JS.trimEnd r); simpl; [|reflexivity].
  destruct (JS.isWhiteSpace c); reflexivity.
Qed.

Lemma trim_toLowerCase s : JS.trim (JS.toLowerCase s) = JS.toLowerCase (JS.trim s).
Proof. unfold JS.trim. now rewrite trimStart_toLowerCase, trimEnd_toLowerCase. Qed.

Lemma trimEnd_idem s : JS.trimEnd (JS.trimEnd s) = JS.trimEnd s.
Proof.
  induction s as [|c r IH]; simpl; [reflexivity|].
  destruct (JS.trimEnd r) as [|c' r'] eqn:E.
  - destruct (JS.isWhiteSpace c) eqn:W; simpl; [reflexivity|].
    now rewrite W.
  - change (JS.trimEnd (String c (String c' r'))) with
      (match JS.trimEnd (String c' r') with
       | EmptyString =>
           if JS.isWhiteSpace c then EmptyString else String c EmptyString
       | x => String c x
       end).
    now rewrite IH.
Qed.

Lemma trimStart_tight s : startsTight (JS.trimStart s).
Proof.
  induction s as [|c r IH]; simpl; [exact I|].
  destruct (JS.isWhiteSpace c) eqn:W; [exact IH | exact W].
Qed.

Lemma trimStart_of_tight s : startsTight s -> JS.trimStart s = s.
Proof. destruct s as [|c r]; simpl; [reflexivity|]. now intros ->. Qed.

Lemma trimEnd_tight s : startsTight s -> startsTight (JS.trimEnd s).
Proof.
  destruct s as [|c r]; simpl; [easy|]. intros W.
  destruct (JS.trimEnd r); [rewrite W|]; exact W.
Qed.

Lemma trim_idem s : JS.trim (JS.trim s) = JS.trim s.
Proof.
  unfold JS.trim.
  rewrite (trimStart_of_tight (JS.trimEnd (JS.trimStart s))).
  - apply trimEnd_idem.
  - apply trimEnd_tight, trimStart_tight.
Qed.

Lemma truthy_true s : JS.truthy s = true <-> s <> "".
Proof. destruct s; simpl; split; congruence. Qed.

Lemma truthy_false s : JS.truthy s = false <-> s = "".
Proof. destruct s; simpl; split; congruence. Qed.

End StringFacts.

(** ** The query history *)

Section History.

Lemma at_index_last (h : list string) :
  App.at_index h (Z.of_nat (length h) - 1) = last h.
Proof.
  unfold App.at_index. rewrite last_lookup.
  destruct h as [|x h]; [reflexivity|].
  cbn [length].
  destruct (Z.ltb_spec (Z.of_nat (S (length h)) - 1) 0) as [?|_]; [lia|].
  f_equal. simpl. lia.
Qed.

(** [pushHistory] in closed form. *)
Lemma pushHistory_historyRef term st :
  App.historyRef (App.pushHistory term st) =
    if decide (term = "" \/ last (App.historyRef st) = Some term)
    then App.historyRef st
    else appended (App.historyRef st) term.
Proof.
  unfold App.pushHistory, appended.
  destruct (JS.truthy term) eqn:T; simpl.
  - apply truthy_true in T. rewrite at_index_last.
    remember (App.historyRef st) as h eqn:Hh.
    assert (E : ((length h =? 0)%nat || negb (bool_decide (last h = Some term)))
                = negb (bool_decide (last h = Some term))).
    { destruct h; reflexivity. }
    rewrite E. clear E.
    destruct (decide (last h = Some term)) as [L|L].
    + rewrite bool_decide_eq_true_2 by exact L. simpl.
      rewrite decide_True by (right; exact L).
      simpl. now symmetry.
    + rewrite bool_decide_eq_false_2 by exact L. simpl.
      rewrite decide_False by (intros [?|?]; congruence).
      destruct (100 <? length (h ++ [term]))%nat; reflexivity.
  - apply truthy_false in T. rewrite decide_True by (left; exact T). reflexivity.
Qed.

Lemma pushHistory_history term st :
  App.history st = App.historyRef st ->
  App.history (App.pushHistory term st) = App.historyRef (App.pushHistory term st).
Proof.
  intros E. unfold App.pushHistory.
  destruct (JS.truthy term); simpl; [|exact E].
  destruct (_ || _); [|exact E].
  destruct (100 <? _)%nat; reflexivity.
Qed.

Lemma appended_length h term :
  length h <= 100 -> length (appended h term) <= 100.
Proof.
  intros L. unfold appended.
  destruct (100 <? length (h ++ [term]))%nat eqn:E.
  - destruct h as [|x h]; simpl in *; [discriminate|].
    rewrite length_app in *. simpl in *. lia.
  - apply Nat.ltb_ge in E. exact E.
Qed.

Lemma pushHistory_length term st :
  length (App.historyRef st) <= 100 ->
  length (App.historyRef (App.pushHistory term st)) <= 100.
Proof.
  intros L. rewrite pushHistory_historyRef.
  destruct (decide _); [exact L | now apply appended_length].
Qed.

Lemma appended_last h term : last (appended h term) = Some term.
Proof.
  unfold appended.
  destruct (Nat.ltb_spec 100 (length (h ++ [term]))) as [E|_].
  - destruct h as [|x h]; [simpl in E; lia|]. simpl. apply last_snoc.
  - apply last_snoc.
Qed.

Lemma appended_room h term :
  length h < 100 -> appended h term = (h ++ [term])%list.
Proof.
  intros L. unfold appended.
  destruct (Nat.ltb_spec 100 (length (h ++ [term]))) as [E|_]; [|reflexivity].
  rewrite length_app in E. simpl in E. lia.
Qed.

Lemma appended_full h term :
  length h = 100 -> appended h term = (tail h ++ [term])%list.
Proof.
  intros L. unfold appended.
  destruct (Nat.ltb_spec 100 (length (h ++ [term]))) as [_|E].
  - destruct h; [discriminate | reflexivity].
  - rewrite length_app in E. simpl in E. lia.
Qed.

(** The history after a query, when the artifact is loaded. *)
Lemma doSearch_historyRef word0 d w st :
  App.historyRef (App.doSearch word0 (Some d) w st) =
    if decide (App.termOf w word0 = ""
               \/ last (App.historyRef st) = Some (App.termOf w word0))
    then App.historyRef st
    else appended (App.historyRef st) (App.termOf w word0).
Proof.
  unfold App.doSearch.
  destruct (JS.truthy (App.termOf w word0)) eqn:T; simpl.
  - destruct (App.lookupEntry d (App.termOf w word0));
      rewrite pushHistory_historyRef; reflexivity.
  - apply truthy_false in T. rewrite decide_True by (left; exact T). reflexivity.
Qed.

End History.

(** C4.  A push of the term that is the most recent entry leaves the history
    as it is; a push of a (non-empty) term that differs from the most recent
    entry appends it, whether or not it occurs earlier in the history;
    querying A, then B, then A again, from an empty history, leaves the
    history [A, B, A] (as normalized terms). *)
Theorem history_suppresses_adjacent_duplicates_only :
  (forall term st,
      last (App.historyRef st) = Some term ->
      App.historyRef (App.pushHistory term st) = App.historyRef st) /\
  (forall term st,
      term <> "" ->
      last (App.historyRef st) <> Some term ->
      App.historyRef (App.pushHistory term st) = appended (App.historyRef st) term /\
      last (App.historyRef (App.pushHistory term st)) = Some term /\
      (length (App.historyRef st) < 100 ->
       App.historyRef (App.pushHistory term st) = (App.historyRef st ++ [term])%list)) /\
  (forall word0 d A B st,
      App.historyRef st = [] ->
      App.termOf (Some A) word0 <> "" ->
      App.termOf (Some B) word0 <> "" ->
      App.termOf (Some A) word0 <> App.termOf (Some B) word0 ->
      App.historyRef
        (App.doSearch word0 (Some d) (Some A)
           (App.doSearch word0 (Some d) (Some B)
              (App.doSearch word0 (Some d) (Some A) st)))
      = [App.termOf (Some A) word0; App.termOf (Some B) word0;
         App.termOf (Some A) word0]).
Proof.
  split; [|split].
  - intros term st L. rewrite pushHistory_historyRef.
    now rewrite decide_True by (right; exact L).
  - intros term st Hne L.
    assert (E : App.historyRef (App.pushHistory term st)
                = appended (App.historyRef st) term).
    { rewrite pushHistory_historyRef.
      now rewrite decide_False by (intros [?|?]; congruence). }
    rewrite E. split; [reflexivity|]. split; [apply appended_last|].
    apply appended_room.
  - intros word0 d A B st H0 HA HB HAB.
    set (a := App.termOf (Some A) word0) in *.
    set (b := App.termOf (Some B) word0) in *.
    assert (H1 : App.historyRef (App.doSearch word0 (Some d) (Some A) st) = [a]).
    { rewrite doSearch_historyRef, H0. fold a.
      now rewrite decide_False by (intros [?|E]; [congruence | discriminate E]). }
    assert (H2 : App.historyRef
                   (App.doSearch word0 (Some d) (Some B)
                      (App.doSearch word0 (Some d) (Some A) st)) = [a; b]).
    { rewrite doSearch_historyRef, H1. fold b.
      now rewrite decide_False by (intros [?|E]; [|simpl in E]; congruence). }
    rewrite doSearch_historyRef, H2. fold a.
    now rewrite decide_False by (intros [?|E]; [|simpl in E]; congruence).
Qed.

Lemma history_suppresses_adjacent_duplicates_only_witness :
  App.historyRef
    (App.pushHistory "b" (App.setHistoryRef ["a"; "b"] App.initial)) = ["a"; "b"] /\
  App.historyRef
    (App.pushHistory "a" (App.setHistoryRef ["a"; "b"] App.initial)) = ["a"; "b"; "a"] /\
  App.historyRef
    (App.doSearch "" (Some ∅) (Some " Cat")
       (App.doSearch "" (Some ∅) (Some "dog ")
          (App.doSearch "" (Some ∅) (Some " Cat") App.initial)))
  = ["cat"; "dog"; "cat"].
Proof.
  destruct history_suppresses_adjacent_duplicates_only as (H1 & H2 & H3).
  split; [|split].
  - apply (H1 "b" (App.setHistoryRef ["a"; "b"] App.initial)). reflexivity.
  - apply (H2 "a" (App.setHistoryRef ["a"; "b"] App.initial)).
    + discriminate.
    + discriminate.
    + simpl. lia.
  - apply (H3 "" ∅ " Cat" "dog " App.initial).
    + reflexivity.
    + discriminate.
    + discriminate.
    + discriminate.
Defined.

(** ** Every write to the history is a push of a normalized term *)

Section Writes.

Lemma pushHistory_history_closed term st :
  App.history (App.pushHistory term st) =
    if decide (term = "" \/ last (App.historyRef st) = Some term)
    then App.history st
    else appended (App.historyRef st) term.
Proof.
  unfold App.pushHistory, appended.
  destruct (JS.truthy term) eqn:T; simpl.
  - apply truthy_true in T. rewrite at_index_last.
    remember (App.historyRef st) as h eqn:Hh.
    assert (E : ((length h =? 0)%nat || negb (bool_decide (last h = Some term)))
                = negb (bool_decide (last h = Some term))).
    { destruct h; reflexivity. }
    rewrite E. clear E.
    destruct (decide (last h = Some term)) as [L|L].
    + rewrite bool_decide_eq_true_2 by exact L. simpl.
      now rewrite decide_True by (right; exact L).
    + rewrite bool_decide_eq_false_2 by exact L. simpl.
      rewrite decide_False by (intros [?|?]; congruence).
      destruct (100 <? length (h ++ [term]))%nat; reflexivity.
  - apply truthy_false in T. now rewrite decide_True by (left; exact T).
Qed.

Lemma termOf_normalized w word0 :
  App.termOf w word0 <> "" -> normalized (App.termOf w word0).
Proof.
  intros Hne. split; [exact Hne|]. unfold App.termOf.
  now rewrite trim_toLowerCase, trim_idem, toLowerCase_idem.
Qed.

Lemma doSearch_writes word0 dict0 w st :
  writes st (App.doSearch word0 dict0 w st).
Proof.
  unfold App.doSearch.
  destruct (JS.truthy (App.termOf w word0)) eqn:T; simpl.
  - apply truthy_true in T.
    destruct dict0 as [d|]; [|left; split; reflexivity].
    right. exists (App.termOf w word0).
    split; [now apply termOf_normalized|].
    destruct (App.lookupEntry d (App.termOf w word0));
      rewrite !pushHistory_historyRef, !pushHistory_history_closed;
      split; reflexivity.
  - left; split; reflexivity.
Qed.

Lemma onKey_writes key focused st : writes st (App.onKey key focused st).
Proof.
  unfold App.onKey.
  destruct (String.eqb key "Enter").
  { destruct focused; [apply doSearch_writes | left; split; reflexivity]. }
  destruct (String.eqb key "Escape"); [left; split; reflexivity|].
  destruct (String.eqb key "ArrowUp").
  { destruct (length (App.historyRef st) =? 0)%nat; [left; split; reflexivity|].
    destruct (App.historyIndex st <? _)%Z; left; split; reflexivity. }
  destruct (String.eqb key "ArrowDown"); [|left; split; reflexivity].
  destruct (length (App.historyRef st) =? 0)%nat; [left; split; reflexivity|].
  destruct (App.historyIndex st >? 0)%Z; left; split; reflexivity.
Qed.

Lemma step_writes st e : writes st (App.step st e).
Proof.
  destruct e as [json| |key focused|v| |syn]; simpl.
  - left; split; reflexivity.
  - left; split; reflexivity.
  - apply onKey_writes.
  - left; split; reflexivity.
  - apply doSearch_writes.
  - unfold App.onClickSynonym.
    destruct (doSearch_writes (App.word st) (App.dictionary st) (Some syn)
                (App.setWord syn st)) as [H|(t & Ht & H1 & H2)].
    + left. exact H.
    + right. exists t. split; [exact Ht|].
      rewrite H1, H2, !pushHistory_historyRef, !pushHistory_history_closed.
      split; reflexivity.
Qed.

Lemma appended_Forall (P : string -> Prop) h term :
  Forall P h -> P term -> Forall P (appended h term).
Proof.
  intros Hh Ht. unfold appended.
  assert (F : Forall P (h ++ [term])).
  { apply Forall_app. split; [exact Hh | now constructor]. }
  destruct (100 <? length (h ++ [term]))%nat; [|exact F].
  destruct (h ++ [term])%list; [constructor | now inversion F].
Qed.

Lemma writes_historyInv st st' : writes st st' -> historyInv st -> historyInv st'.
Proof.
  intros [[E1 E2]|(t & Ht & E1 & E2)] (I1 & I2 & I3); unfold historyInv.
  - rewrite E1, E2. auto.
  - rewrite E1, E2, pushHistory_history_closed.
    split; [|split].
    + rewrite pushHistory_historyRef.
      destruct (decide _); [exact I1 | now apply appended_Forall].
    + destruct (decide _); [exact I2 | now apply appended_Forall].
    + now apply pushHistory_length.
Qed.

Lemma step_historyInv st e : historyInv st -> historyInv (App.step st e).
Proof. apply writes_historyInv, step_writes. Qed.

Lemma foldl_step_historyInv es st :
  historyInv st -> historyInv (foldl App.step st es).
Proof.
  revert st. induction es as [|e es IH]; intros st I; simpl; [exact I|].
  apply IH, step_historyInv, I.
Qed.

Lemma initial_historyInv : historyInv App.initial.
Proof. repeat split; simpl; try constructor. lia. Qed.

End Writes.

(** C10.  Whatever the user does, every entry of the query history (the
    array the handlers use and the copy kept in the component state) is a
    non-empty string equal to its own trimmed, lowercased form. *)
Theorem history_entries_are_normalized (es : list App.event) :
  Forall normalized (App.historyRef (App.run es)) /\
  Forall normalized (App.history (App.run es)).
Proof.
  destruct (foldl_step_historyInv es App.initial initial_historyInv) as (H1 & H2 & _).
  split; assumption.
Qed.

(** C5.  After every sequence of pushes, and after every sequence of user
    actions, the history holds at most 100 entries; a push of a non-empty
    term onto a history of 100 entries whose last one differs from the term
    drops the oldest entry and puts the term at the end. *)
Theorem history_is_bounded_fifo :
  (forall terms,
      length (App.historyRef
                (foldl (fun st t => App.pushHistory t st) App.initial terms)) <= 100) /\
  (forall es, length (App.historyRef (App.run es)) <= 100) /\
  (forall term st,
      length (App.historyRef st) = 100 ->
      term <> "" ->
      last (App.historyRef st) <> Some term ->
      App.historyRef (App.pushHistory term st) = (tail (App.historyRef st) ++ [term])%list).
Proof.
  split; [|split].
  - intros terms.
    assert (G : forall st, length (App.historyRef st) <= 100 ->
              length (App.historyRef
                        (foldl (fun st t => App.pushHistory t st) st terms)) <= 100).
    { induction terms as [|t ts IH]; intros st L; simpl; [exact L|].
      apply IH, pushHistory_length, L. }
    apply G. simpl. lia.
  - intros es. apply (foldl_step_historyInv es App.initial initial_historyInv).
  - intros term st L Hne Hlast.
    rewrite pushHistory_historyRef.
    rewrite decide_False by (intros [?|?]; congruence).
    now apply appended_full.
Qed.

Lemma history_is_bounded_fifo_witness :
  length (App.historyRef
            (foldl (fun st t => App.pushHistory t st) App.initial
               (replicate 60 "a" ++ replicate 60 "b"))) <= 100 /\
  App.historyRef
    (App.pushHistory "z" (App.setHistoryRef ("a" :: replicate 99 "b") App.initial))
  = (replicate 99 "b" ++ ["z"])%list.
Proof.
  destruct history_is_bounded_fifo as (H1 & _ & H3).
  split.
  - apply H1.
  - apply (H3 "z" (App.setHistoryRef ("a" :: replicate 99 "b") App.initial)).
    + reflexivity.
    + discriminate.
    + vm_compute. discriminate.
Defined.

(** ** Recall navigation *)

(** C3.  With history [A, B, C] and a fresh cursor, ArrowUp puts C in the
    query field, a second ArrowUp puts B, ArrowDown puts C back, a second
    ArrowDown empties the field and resets the cursor; none of the four
    steps calls [doSearch] or touches the result, the error or the
    history. *)
Theorem recall_navigation (A B C : string) (f1 f2 f3 f4 : bool) (st : App.state)
    (Hh : App.historyRef st = [A; B; C])
    (Hi : App.historyIndex st = (-1)%Z) :
  let s1 := App.step st (App.KeyDown "ArrowUp" f1) in
  let s2 := App.step s1 (App.KeyDown "ArrowUp" f2) in
  let s3 := App.step s2 (App.KeyDown "ArrowDown" f3) in
  let s4 := App.step s3 (App.KeyDown "ArrowDown" f4) in
  App.word s1 = C /\ App.word s2 = B /\ App.word s3 = C /\ App.word s4 = "" /\
  App.historyIndex s4 = (-1)%Z /\
  Forall (fun s => App.searches s = App.searches st /\
                   App.result s = App.result st /\
                   App.error s = App.error st /\
                   App.historyRef s = App.historyRef st /\
                   App.history s = App.history st)
         [s1; s2; s3; s4].
Proof.
  destruct st as [d l w r e h href hi n]. simpl in Hh, Hi. subst href hi.
  cbv zeta. cbn.
  repeat split; repeat constructor; reflexivity.
Qed.

Lemma recall_navigation_witness :
  let st := App.setHistoryRef ["ant"; "bee"; "cat"] App.initial in
  let s1 := App.step st (App.KeyDown "ArrowUp" true) in
  let s2 := App.step s1 (App.KeyDown "ArrowUp" true) in
  let s3 := App.step s2 (App.KeyDown "ArrowDown" true) in
  let s4 := App.step s3 (App.KeyDown "ArrowDown" true) in
  App.word s1 = "cat" /\ App.word s2 = "bee" /\ App.word s3 = "cat" /\
  App.word s4 = "".
Proof.
  pose proof (recall_navigation "ant" "bee" "cat" true true true true
                (App.setHistoryRef ["ant"; "bee"; "cat"] App.initial)
                eq_refl eq_refl) as H.
  cbv zeta in H |- *.
  destruct H as (H1 & H2 & H3 & H4 & _).
  repeat split; assumption.
Defined.

(** ** The query operation *)

Section Query.

Lemma lookupEntry_absent (d : App.lexicon) term :
  d !! term = None ->
  JS.inheritedName term = false ->
  App.lookupEntry d term = None.
Proof. intros H1 H2. unfold App.lookupEntry. now rewrite H1, H2. Qed.

(** A term that is neither a key of the artifact nor a name inherited
    from [Object.prototype] gets the "No match." state, and is pushed. *)
Lemma doSearch_absent word0 (d : App.lexicon) w st :
  App.termOf w word0 <> "" ->
  d !! App.termOf w word0 = None ->
  JS.inheritedName (App.termOf w word0) = false ->
  let st' := App.doSearch word0 (Some d) w st in
  App.result st' = None /\ App.error st' = "No match." /\
  App.historyRef st' = App.historyRef (App.pushHistory (App.termOf w word0) st).
Proof.
  intros Hne Hd Hi. cbv zeta. unfold App.doSearch.
  apply truthy_true in Hne. rewrite Hne. simpl.
  rewrite (lookupEntry_absent _ _ Hd Hi).
  rewrite !pushHistory_historyRef. simpl.
  unfold App.pushHistory. rewrite Hne. simpl.
  repeat split; destruct (_ || _); reflexivity.
Qed.

End Query.

(** C2, as the code has it.  A query whose input is empty after trimming
    sets the error message to the validation error and clears the displayed
    result; the history (both copies), the recall cursor, the query field,
    the loaded artifact and the loading flag stay as they are. *)
Theorem empty_query_is_rejected (word0 : string) (dict0 : option App.lexicon)
    (w : option string) (st : App.state)
    (Hempty : JS.trim (default word0 w) = "") :
  let st' := App.doSearch word0 dict0 w st in
  App.error st' = "Please enter a word." /\
  App.result st' = None /\
  App.historyRef st' = App.historyRef st /\
  App.history st' = App.history st /\
  App.historyIndex st' = App.historyIndex st /\
  App.word st' = App.word st /\
  App.dictionary st' = App.dictionary st /\
  App.loading st' = App.loading st.
Proof.
  cbv zeta. unfold App.doSearch, App.termOf. rewrite Hempty. simpl.
  repeat split; reflexivity.
Qed.

Lemma empty_query_is_rejected_witness :
  let st := App.setResult (Some (App.Entry ∅)) (App.setHistoryRef ["cat"] App.initial) in
  let st' := App.doSearch "" (Some ∅) (Some "   ") st in
  App.error st' = "Please enter a word." /\ App.result st' = None /\
  App.historyRef st' = ["cat"].
Proof.
  pose proof (empty_query_is_rejected "" (Some ∅) (Some "   ")
                (App.setResult (Some (App.Entry ∅))
                   (App.setHistoryRef ["cat"] App.initial))
                eq_refl) as H.
  cbv zeta in H |- *.
  destruct H as (H1 & H2 & H3 & _).
  repeat split; assumption.
Defined.

(** C2, as the claim has it, fails: an empty query is a change of state
    besides the error message, since it clears a result that was shown. *)
Lemma empty_query_changes_state :
  ~ (forall word0 dict0 w st,
        JS.trim (default word0 w) = "" ->
        let st' := App.doSearch word0 dict0 w st in
        App.error st' = "Please enter a word." /\
        App.historyRef st' = App.historyRef st /\
        sameButError st st').
Proof.
  intros H.
  specialize (H "" (Some ∅) (Some "")
                (App.setResult (Some (App.Entry ∅)) App.initial) eq_refl).
  cbv zeta in H. destruct H as (_ & _ & _ & _ & _ & R & _).
  discriminate R.
Qed.


(** ** The compiler: one word of one record *)

Section AddWord.

Lemma addWord_console ws g pk st w :
  Build.console (Build.addWord ws g pk st w) = Build.console st.
Proof.
  unfold Build.addWord, Build.pushSense, Build.ensurePos, Build.setProps,
    Build.ensureWord.
  repeat (case_match; simpl); reflexivity.
Qed.

(** The own properties of [dictionary] after the body of the loop over
    the words: the record is appended under the key, as a new entry or a
    new part of speech where there was none; when the key is absent and is
    a name inherited from [Object.prototype], [dictionary] is untouched
    (the record goes to the inherited object). *)
Lemma addWord_dictionary ws g pk st w :
  Build.dictionary (Build.addWord ws g pk st w) =
    match Build.dictionary st !! Build.normalize w with
    | Some e =>
        <[Build.normalize w :=
            <[pk := (default [] (e !! pk) ++ [senseFor ws g w])%list]> e]>
          (Build.dictionary st)
    | None =>
        if JS.inheritedName (Build.normalize w) then Build.dictionary st
        else <[Build.normalize w := {[pk := [senseFor ws g w]]}]>
               (Build.dictionary st)
    end.
Proof.
  unfold Build.addWord. fold (senseFor ws g w).
  generalize (senseFor ws g w) as r. generalize (Build.normalize w) as key.
  intros key r. destruct st as [d inh con].
  unfold Build.ensureWord, Build.resolve. simpl.
  destruct (d !! key) as [e|] eqn:E.
  - unfold Build.ensurePos, Build.props, Build.resolve. simpl. rewrite E. simpl.
    destruct (e !! pk) as [l|] eqn:P.
    + unfold Build.pushSense, Build.setProps, Build.props, Build.resolve.
      simpl. rewrite E. simpl. now rewrite P.
    + unfold Build.pushSense, Build.setProps, Build.props, Build.resolve.
      simpl. rewrite E. simpl.
      repeat (rewrite ?lookup_insert_eq, ?insert_insert_eq; simpl).
      reflexivity.
  - destruct (JS.inheritedName key) eqn:I.
    + unfold Build.ensurePos, Build.pushSense, Build.setProps, Build.props,
        Build.resolve. simpl. rewrite E, I. simpl.
      destruct (default ∅ (inh !! key) !! pk); simpl; rewrite ?E; reflexivity.
    + unfold Build.ensurePos, Build.pushSense, Build.setProps, Build.props,
        Build.resolve. simpl.
      repeat (rewrite ?lookup_insert_eq, ?insert_insert_eq, ?lookup_empty; simpl).
      reflexivity.
Qed.

Lemma lowerChar_underscore c :
  Ascii.eqb (JS.lowerChar c) "_" = Ascii.eqb c "_".
Proof. destruct c as [[] [] [] [] [] [] [] []]; reflexivity. Qed.

Lemma hasUnderscore_toLowerCase s :
  hasUnderscore (JS.toLowerCase s) = hasUnderscore s.
Proof.
  induction s as [|c r IH]; simpl; [reflexivity|].
  now rewrite lowerChar_underscore, IH.
Qed.

Lemma hasUnderscore_replaceUnderscores s :
  hasUnderscore (JS.replaceUnderscores s) = false.
Proof.
  induction s as [|c r IH]; simpl; [reflexivity|].
  rewrite IH. destruct (Ascii.eqb c "_") eqn:E; [reflexivity|].
  now rewrite E.
Qed.

(** Of the names inherited from [Object.prototype], a lowercased string
    without underscore can only be [constructor]: the others have a
    capital letter or an underscore. *)
Lemma inherited_lowercase w :
  hasUnderscore w = false ->
  JS.inheritedName (JS.toLowerCase w) = true ->
  JS.toLowerCase w = "constructor".
Proof.
  intros U I.
  pose proof (hasUnderscore_toLowerCase w) as HU. rewrite U in HU.
  pose proof (toLowerCase_idem w) as HL.
  unfold JS.inheritedName in I. apply bool_decide_eq_true_1 in I.
  unfold JS.objectPrototypeNames in I.
  repeat (apply elem_of_cons in I as [I|I];
          [ try exact I; rewrite I in HU, HL; discriminate | ]).
  now apply elem_of_nil in I.
Qed.

Lemma wordLoop_Forall (P : string -> Prop) rest n i words :
  (forall w, P (JS.replaceUnderscores w)) ->
  Forall P words -> Forall P (Build.wordLoop rest n i words).
Proof.
  intros HP. revert i words.
  induction n as [|n IH]; intros i words F; simpl; [exact F|].
  apply IH. destruct (rest !! (i * 2)%nat) as [w|]; [|exact F].
  destruct (JS.truthy w); [|exact F].
  apply Forall_app. split; [exact F|]. constructor; [apply HP | constructor].
Qed.

Lemma extractWords_no_underscore rest wcnt :
  Forall (fun w => hasUnderscore w = false) (Build.extractWords rest wcnt).
Proof.
  apply wordLoop_Forall; [apply hasUnderscore_replaceUnderscores | constructor].
Qed.

Lemma addWord_keys ws g pk st w k :
  is_Some (Build.dictionary st !! k) ->
  is_Some (Build.dictionary (Build.addWord ws g pk st w) !! k).
Proof.
  intros H. rewrite addWord_dictionary.
  destruct (Build.dictionary st !! Build.normalize w) eqn:E.
  - destruct (decide (Build.normalize w = k)) as [->|N].
    + rewrite lookup_insert_eq. eauto.
    + now rewrite lookup_insert_ne.
  - destruct (JS.inheritedName _); [exact H|].
    destruct (decide (Build.normalize w = k)) as [->|N].
    + rewrite lookup_insert_eq. eauto.
    + now rewrite lookup_insert_ne.
Qed.

Lemma addWord_key ws g pk st w :
  hasUnderscore w = false ->
  linked (Build.dictionary (Build.addWord ws g pk st w)) w.
Proof.
  intros U. unfold linked. rewrite addWord_dictionary.
  change (Build.normalize w) with (JS.toLowerCase w).
  destruct (Build.dictionary st !! JS.toLowerCase w) eqn:E.
  - right. rewrite lookup_insert_eq. eauto.
  - destruct (JS.inheritedName (JS.toLowerCase w)) eqn:I.
    + left. now apply inherited_lowercase.
    + right. rewrite lookup_insert_eq. eauto.
Qed.

Lemma addWord_senses ws g pk st w r :
  sensesOf (Build.dictionary (Build.addWord ws g pk st w)) r ->
  sensesOf (Build.dictionary st) r \/ r = senseFor ws g w.
Proof.
  intros (k & e & p & rs & Hk & Hp & Hr).
  rewrite addWord_dictionary in Hk.
  destruct (Build.dictionary st !! Build.normalize w) as [e0|] eqn:E.
  - destruct (decide (Build.normalize w = k)) as [Ek|N]; [subst k|].
    + rewrite lookup_insert_eq in Hk. injection Hk as <-.
      destruct (decide (pk = p)) as [Ep|Np]; [subst p|].
      * rewrite lookup_insert_eq in Hp. injection Hp as <-.
        apply elem_of_app in Hr as [Hr|Hr].
        -- left. destruct (e0 !! pk) as [l|] eqn:P; simpl in Hr.
           ++ exists (Build.normalize w), e0, pk, l. auto.
           ++ now apply elem_of_nil in Hr.
        -- right. now apply list_elem_of_singleton in Hr.
      * rewrite lookup_insert_ne in Hp by exact Np.
        left. exists (Build.normalize w), e0, p, rs. auto.
    + rewrite lookup_insert_ne in Hk by exact N.
      left. exists k, e, p, rs. auto.
  - destruct (JS.inheritedName _).
    { left. exists k, e, p, rs. auto. }
    destruct (decide (Build.normalize w = k)) as [Ek|N]; [subst k|].
    + rewrite lookup_insert_eq in Hk. injection Hk as <-.
      apply lookup_singleton_Some in Hp as [_ <-].
      right. now apply list_elem_of_singleton in Hr.
    + rewrite lookup_insert_ne in Hk by exact N.
      left. exists k, e, p, rs. auto.
Qed.

End AddWord.

(** ** The compiler: records, files, the run *)

Section Records.

Lemma linked_mono (d d' : Build.lexicon) s :
  (forall k, is_Some (d !! k) -> is_Some (d' !! k)) ->
  linked d s -> linked d' s.
Proof. intros M [H|H]; [now left | right; now apply M]. Qed.

(** The loop over the words of one record. *)
Lemma addWords_spec ws g pk l st :
  Forall (fun w => hasUnderscore w = false) l ->
  (forall k, is_Some (Build.dictionary st !! k) ->
             is_Some (Build.dictionary (foldl (Build.addWord ws g pk) st l) !! k)) /\
  (forall w, w ∈ l ->
             linked (Build.dictionary (foldl (Build.addWord ws g pk) st l)) w) /\
  (forall r, sensesOf (Build.dictionary (foldl (Build.addWord ws g pk) st l)) r ->
             sensesOf (Build.dictionary st) r \/
             exists w, w ∈ l /\ r = senseFor ws g w).
Proof.
  intros F. revert st.
  induction F as [|w l U F IH]; intros st; simpl.
  - split; [auto|]. split; [|auto].
    intros w Hw. now apply elem_of_nil in Hw.
  - destruct (IH (Build.addWord ws g pk st w)) as (M & K & S).
    split; [|split].
    + intros k Hk. apply M, addWord_keys, Hk.
    + intros w' Hw'. apply elem_of_cons in Hw' as [->|Hw'].
      * eapply linked_mono; [exact M|]. now apply addWord_key.
      * now apply K.
    + intros r Hr. destruct (S r Hr) as [Hr'|(w' & Hw' & ->)].
      * destruct (addWord_senses _ _ _ _ _ _ Hr') as [Ho| ->].
        -- now left.
        -- right. exists w. split; [apply list_elem_of_here | reflexivity].
      * right. exists w'. split; [now apply list_elem_of_further | reflexivity].
Qed.

Lemma parseDataLine_wellLinked st line :
  wellLinked (Build.dictionary st) ->
  wellLinked (Build.dictionary (Build.parseDataLine st line)).
Proof.
  intros W. unfold Build.parseDataLine.
  destruct (_ || _); [exact W|].
  destruct (JS.parseInt16 _) as [wcnt|]; [|exact W].
  destruct (wcnt <=? 0)%Z; [exact W|].
  destruct (Build.posKeyOf _) as [pk|]; [|exact W].
  set (ws := Build.extractWords (Build.restFields line) wcnt).
  destruct (addWords_spec ws (Build.glossOf line) pk ws st
              (extractWords_no_underscore _ _)) as (M & K & S).
  intros r s Hr Hs. destruct (S r Hr) as [Ho|(w & Hw & ->)].
  - eapply linked_mono; [exact M|]. now apply (W r).
  - apply K. simpl in Hs. now apply list_elem_of_filter in Hs as [_ Hs].
Qed.

Lemma parseDataLine_console st line :
  Build.console (Build.parseDataLine st line) = Build.console st.
Proof.
  unfold Build.parseDataLine.
  destruct (_ || _); [reflexivity|].
  destruct (JS.parseInt16 _) as [wcnt|]; [|reflexivity].
  destruct (wcnt <=? 0)%Z; [reflexivity|].
  destruct (Build.posKeyOf _) as [pk|]; [|reflexivity].
  generalize (Build.extractWords (Build.restFields line) wcnt) at 1 as ws.
  intros ws.
  generalize (Build.extractWords (Build.restFields line) wcnt) as l.
  intros l. revert st.
  induction l as [|w l IH]; intros st; simpl; [reflexivity|].
  now rewrite IH, addWord_console.
Qed.

Lemma parseDataFile_wellLinked fs st pos :
  wellLinked (Build.dictionary st) ->
  wellLinked (Build.dictionary (Build.parseDataFile fs st pos)).
Proof.
  unfold Build.parseDataFile. destruct (fs !! _) as [text|]; [|auto].
  generalize (JS.splitLines text) as lines. intros lines. revert st.
  induction lines as [|line lines IH]; intros st W; simpl; [exact W|].
  apply IH, parseDataLine_wellLinked, W.
Qed.

Lemma parseDataFile_console fs st pos :
  Build.console (Build.parseDataFile fs st pos) = Build.console st.
Proof.
  unfold Build.parseDataFile. destruct (fs !! _) as [text|]; [|reflexivity].
  generalize (JS.splitLines text) as lines. intros lines. revert st.
  induction lines as [|line lines IH]; intros st; simpl; [reflexivity|].
  now rewrite IH, parseDataLine_console.
Qed.

(** A category whose data file is missing is skipped: the state stays as
    it is, so the entries of the other categories are those of a run
    without it. *)
Lemma parseDataFile_missing (fs : Build.files) st pos :
  fs !! Build.dataPath pos = None -> Build.parseDataFile fs st pos = st.
Proof. intros H. unfold Build.parseDataFile. now rewrite H. Qed.

(** The function the script never calls does warn about a missing file. *)
Lemma parseIndexFile_missing (fs : Build.files) pos filePath st :
  fs !! filePath = None ->
  Build.console (Build.parseIndexFile fs pos filePath st)
  = (Build.console st ++ [Build.WarnMissingIndex pos filePath])%list.
Proof. intros H. unfold Build.parseIndexFile. now rewrite H. Qed.

Lemma wellLinked_empty : wellLinked ∅.
Proof.
  intros r s (k & e & pk & rs & Hk & _) _. now rewrite lookup_empty in Hk.
Qed.

Lemma main_wellLinked fs : wellLinked (Build.artifact fs).
Proof.
  unfold Build.artifact, Build.main. simpl.
  repeat apply parseDataFile_wellLinked. simpl. apply wellLinked_empty.
Qed.

(** What a run prints, whatever files exist. *)
Lemma main_console fs :
  Build.console (Build.main fs)
  = [Build.LogBuilding; Build.LogBuilt (size (Build.artifact fs));
     Build.LogWrote Build.OUT].
Proof.
  unfold Build.artifact, Build.main. simpl.
  now rewrite !parseDataFile_console.
Qed.

End Records.

(** ** What one record adds, word by word *)

Section Appends.

Lemma addWord_sensesAt ws g pk st w k p :
  JS.inheritedName k = false \/ is_Some (Build.dictionary st !! k) ->
  sensesAt (Build.dictionary (Build.addWord ws g pk st w)) k p =
    (sensesAt (Build.dictionary st) k p ++
     if decide (Build.normalize w = k /\ pk = p) then [senseFor ws g w] else [])%list.
Proof.
  intros Hk. rewrite addWord_dictionary. unfold sensesAt.
  destruct (Build.dictionary st !! Build.normalize w) as [e0|] eqn:E.
  - destruct (decide (Build.normalize w = k)) as [Ek|N].
    + subst k. rewrite lookup_insert_eq, E. simpl.
      destruct (decide (pk = p)) as [Ep|Np].
      * subst p. rewrite lookup_insert_eq. simpl.
        now rewrite decide_True by auto.
      * rewrite lookup_insert_ne by exact Np.
        rewrite decide_False by (intros [_ ?]; contradiction).
        now rewrite app_nil_r.
    + rewrite lookup_insert_ne by exact N.
      rewrite decide_False by (intros [? _]; contradiction).
      now rewrite app_nil_r.
  - destruct (JS.inheritedName (Build.normalize w)) eqn:I.
    + rewrite decide_False; [now rewrite app_nil_r|].
      intros [Ek _]. subst k. destruct Hk as [Hk|[x Hk]]; congruence.
    + destruct (decide (Build.normalize w = k)) as [Ek|N].
      * subst k. rewrite lookup_insert_eq, E. simpl.
        destruct (decide (pk = p)) as [Ep|Np].
        -- subst p. rewrite lookup_singleton_eq. simpl.
           now rewrite decide_True by auto.
        -- rewrite lookup_singleton_ne by exact Np.
           now rewrite decide_False by (intros [_ ?]; contradiction).
      * rewrite lookup_insert_ne by exact N.
        rewrite decide_False by (intros [? _]; contradiction).
        now rewrite app_nil_r.
Qed.

Lemma addWords_sensesAt ws g pk l st k p :
  JS.inheritedName k = false \/ is_Some (Build.dictionary st !! k) ->
  sensesAt (Build.dictionary (foldl (Build.addWord ws g pk) st l)) k p =
    (sensesAt (Build.dictionary st) k p ++
     if decide (pk = p)
     then map (senseFor ws g) (filter (fun w => JS.toLowerCase w = k) l)
     else [])%list.
Proof.
  revert st. induction l as [|w l IH]; intros st Hk; simpl.
  - destruct (decide (pk = p)); simpl; now rewrite app_nil_r.
  - rewrite IH.
    2:{ destruct Hk as [Hk|Hk]; [now left | right; now apply addWord_keys]. }
    rewrite addWord_sensesAt by exact Hk.
    rewrite <- app_assoc. f_equal.
    change (Build.normalize w) with (JS.toLowerCase w).
    rewrite filter_cons.
    destruct (decide (pk = p)) as [Ep|Np].
    + destruct (decide (JS.toLowerCase w = k)) as [Ek|Nk].
      * now rewrite decide_True by auto.
      * now rewrite decide_False by (intros [? _]; contradiction).
    + now rewrite decide_False by (intros [_ ?]; contradiction).
Qed.

(** The sound part of C1.  A line that passes the guards, with word count
    [N >= 1] and part-of-speech key [pk], appends under every key [k] that
    [dictionary] owns or does not inherit, as part of speech [pk], one
    sense record for each extracted word whose lowercased form is [k], in
    order: its definition is the gloss and its synonyms are the extracted
    words that differ from it when lowercased.  Nothing else is added
    under [k]. *)
Lemma parseDataLine_appends st line N pk k p :
  JS.truthy line = true ->
  JS.startsWith "  " line = false ->
  JS.parseInt16 (Build.wordCountField line) = Some N ->
  (1 <= N)%Z ->
  Build.posKeyOf (Build.ssTypeField line) = Some pk ->
  JS.inheritedName k = false \/ is_Some (Build.dictionary st !! k) ->
  let ws := Build.extractWords (Build.restFields line) N in
  sensesAt (Build.dictionary (Build.parseDataLine st line)) k p =
    (sensesAt (Build.dictionary st) k p ++
     if decide (pk = p)
     then map (senseFor ws (Build.glossOf line))
              (filter (fun w => JS.toLowerCase w = k) ws)
     else [])%list.
Proof.
  intros T I P L K Hk. cbv zeta. unfold Build.parseDataLine.
  rewrite T, I, P, K. simpl.
  destruct (Z.leb_spec N 0) as [?|_]; [lia|].
  now apply addWords_sensesAt.
Qed.

End Appends.

Example parseDataLine_happy_glad :
  Build.dictionary (Build.parseDataLine Build.initial happy_line)
  = {[ "happy" := {[ Build.adj := [Build.Sense "feeling joy" ["glad"]] ]};
       "glad" := {[ Build.adj := [Build.Sense "feeling joy" ["happy"]] ]} ]}.
Proof. vm_compute. reflexivity. Qed.

(** C1, at a record that lists the word [constructor].  The record has word
    count 2 and type [n]; its words are [builder] and [constructor].  The
    sense of [builder] is stored, with [constructor] as its synonym; no
    sense is stored under [constructor], which is not even a key of the
    dictionary that is written out: [dictionary["constructor"]] is the
    inherited function [Object], and the record is pushed onto a property
    of that function. *)
Theorem record_of_constructor_is_lost :
  let gloss := "someone who contracts for and supervises construction (as of a building)" in
  let st := Build.parseDataLine Build.initial builder_line in
  JS.parseInt16 (Build.wordCountField builder_line) = Some 2%Z /\
  Build.posKeyOf (Build.ssTypeField builder_line) = Some Build.noun /\
  Build.extractWords (Build.restFields builder_line) 2 = ["builder"; "constructor"] /\
  Build.glossOf builder_line = gloss /\
  Build.dictionary st
    = {[ "builder" := {[ Build.noun := [Build.Sense gloss ["constructor"]] ]} ]} /\
  Build.dictionary st !! "constructor" = None /\
  Build.inherited st
    = {[ "constructor" := {[ Build.noun := [Build.Sense gloss ["builder"]] ]} ]}.
Proof. cbv zeta. repeat split; vm_compute; reflexivity. Qed.

(** C6, as the code has it.  In the compiled artifact, every string of a
    synonyms array has its lowercased form among the top-level keys, unless
    that form is [constructor]. *)
Theorem synonyms_are_keys_when_lowercased (fs : Build.files)
    (k : string) (e : gmap Build.posKey (list Build.sense)) (pk : Build.posKey)
    (rs : list Build.sense) (r : Build.sense) (s : string)
    (Hk : Build.artifact fs !! k = Some e)
    (Hpk : e !! pk = Some rs)
    (Hr : r ∈ rs)
    (Hs : s ∈ Build.synonyms r)
    (Hc : JS.toLowerCase s <> "constructor") :
  is_Some (Build.artifact fs !! JS.toLowerCase s).
Proof.
  destruct (main_wellLinked fs r s) as [H|H].
  - exists k, e, pk, rs. auto.
  - exact Hs.
  - contradiction.
  - exact H.
Qed.

Lemma synonyms_are_keys_when_lowercased_witness :
  is_Some (Build.artifact nouns_only !! "city of light").
Proof.
  apply (synonyms_are_keys_when_lowercased nouns_only "paris"
           {[ Build.noun :=
                [Build.Sense "the capital and largest city of France" ["City of Light"]] ]}
           Build.noun
           [Build.Sense "the capital and largest city of France" ["City of Light"]]
           (Build.Sense "the capital and largest city of France" ["City of Light"])
           "City of Light").
  - vm_compute. reflexivity.
  - vm_compute. reflexivity.
  - apply list_elem_of_here.
  - apply list_elem_of_here.
  - vm_compute. discriminate.
Defined.

(** C6, as the claim has it, fails: synonyms keep the casing of the source
    record while keys are lowercased, so the synonym [City of Light] of
    [paris] is not a key of the artifact. *)
Lemma synonym_in_original_casing_is_not_a_key :
  ~ (forall (fs : Build.files) k (e : gmap Build.posKey (list Build.sense)) pk rs r s,
        Build.artifact fs !! k = Some e ->
        e !! pk = Some rs ->
        r ∈ rs ->
        s ∈ Build.synonyms r ->
        is_Some (Build.artifact fs !! s)).
Proof.
  intros H.
  specialize (H nouns_only "paris"
           {[ Build.noun :=
                [Build.Sense "the capital and largest city of France" ["City of Light"]] ]}
           Build.noun
           [Build.Sense "the capital and largest city of France" ["City of Light"]]
           (Build.Sense "the capital and largest city of France" ["City of Light"])
           "City of Light").
  destruct H as [x Hx].
  - vm_compute. reflexivity.
  - vm_compute. reflexivity.
  - apply list_elem_of_here.
  - apply list_elem_of_here.
  - vm_compute in Hx. discriminate Hx.
Qed.

(** C8.  A line whose word-count field is not a base-16 number, or is one
    of value zero, leaves the state of the run as it is: no entry, no
    sense, no message.  (The model of the loop body is a total function:
    there is no error to raise.) *)
Theorem zero_or_unparseable_count_is_skipped (st : Build.state) (line : string)
    (H : JS.parseInt16 (Build.wordCountField line) = None \/
         JS.parseInt16 (Build.wordCountField line) = Some 0%Z) :
  Build.parseDataLine st line = st.
Proof.
  unfold Build.parseDataLine.
  destruct (_ || _); [reflexivity|].
  destruct H as [-> | ->]; reflexivity.
Qed.

Lemma zero_or_unparseable_count_is_skipped_witness :
  Build.parseDataLine (Build.parseDataLine Build.initial happy_line)
    "00001740 00 a 00 happy 0 glad 0 000 | feeling joy"
  = Build.parseDataLine Build.initial happy_line /\
  Build.parseDataLine Build.initial "00001740 00 a zz happy 0 | feeling joy"
  = Build.initial.
Proof.
  split.
  - apply zero_or_unparseable_count_is_skipped. right. reflexivity.
  - apply zero_or_unparseable_count_is_skipped. left. reflexivity.
Defined.

(** C9, at a run in which only the noun file exists.  The three other
    categories are skipped and the run goes on to write the entries of the
    noun file, but nothing is printed about the missing files: the
    messages of the run are the three progress lines, and no run prints a
    warning, whatever files exist. *)
Theorem missing_data_file_gives_no_warning :
  Build.dataPath Build.verb = "data.verb" /\
  nouns_only !! Build.dataPath Build.verb = None /\
  Build.console (Build.main nouns_only)
    = [Build.LogBuilding; Build.LogBuilt 2; Build.LogWrote "public/dictionary.json"] /\
  Build.artifact nouns_only
    = Build.dictionary (Build.parseDataLine Build.initial paris_line) /\
  (forall fs, Forall (fun m => Build.isWarning m = false) (Build.console (Build.main fs))).
Proof.
  split; [reflexivity|]. split; [reflexivity|].
  split; [vm_compute; reflexivity|]. split; [vm_compute; reflexivity|].
  intros fs. rewrite main_console. repeat constructor.
Qed.

(** * Further properties of the compiler *)

Section RunInvariants.

Lemma glossOf_trimmed line : JS.trim (Build.glossOf line) = Build.glossOf line.
Proof.
  unfold Build.glossOf. destruct (JS.sliceAfter _ _); [apply trim_idem | reflexivity].
Qed.

Lemma replaceUnderscores_nonempty w :
  JS.truthy w = true -> JS.replaceUnderscores w <> "".
Proof. destruct w; simpl; [discriminate | discriminate]. Qed.

Lemma wordLoop_Forall_truthy (P : string -> Prop) rest n i words :
  (forall w, JS.truthy w = true -> P (JS.replaceUnderscores w)) ->
  Forall P words -> Forall P (Build.wordLoop rest n i words).
Proof.
  intros HP. revert i words.
  induction n as [|n IH]; intros i words F; simpl; [exact F|].
  apply IH. destruct (rest !! (i * 2)%nat) as [w|]; [|exact F].
  destruct (JS.truthy w) eqn:T; [|exact F].
  apply Forall_app. split; [exact F|]. constructor; [now apply HP | constructor].
Qed.

Lemma extractWords_good rest wcnt :
  Forall goodWord (Build.extractWords rest wcnt).
Proof.
  apply wordLoop_Forall_truthy; [|constructor].
  intros w T. split.
  - now apply replaceUnderscores_nonempty.
  - apply hasUnderscore_replaceUnderscores.
Qed.

(** A property of the dictionary that holds before the run and that every
    line keeps holds of the artifact. *)
Lemma artifact_invariant (P : Build.lexicon -> Prop) :
  P ∅ ->
  (forall st line,
      P (Build.dictionary st) -> P (Build.dictionary (Build.parseDataLine st line))) ->
  forall fs, P (Build.artifact fs).
Proof.
  intros P0 Pline fs.
  assert (Pfile : forall st pos,
             P (Build.dictionary st) ->
             P (Build.dictionary (Build.parseDataFile fs st pos))).
  { intros st pos. unfold Build.parseDataFile.
    destruct (fs !! _) as [text|]; [|auto].
    generalize (JS.splitLines text) as lines. intros lines. revert st.
    induction lines as [|line lines IH]; intros st H; simpl; [exact H|].
    apply IH, Pline, H. }
  unfold Build.artifact, Build.main. simpl.
  repeat apply Pfile. simpl. exact P0.
Qed.

(** A property that every pass of the loop over the words keeps, for the
    words and the gloss a line can give, is kept by every line. *)
Lemma line_invariant (P : Build.lexicon -> Prop) :
  (forall ws g pk st w,
      Forall goodWord ws -> w ∈ ws -> JS.trim g = g ->
      P (Build.dictionary st) ->
      P (Build.dictionary (Build.addWord ws g pk st w))) ->
  forall st line,
    P (Build.dictionary st) -> P (Build.dictionary (Build.parseDataLine st line)).
Proof.
  intros Pword st line H. unfold Build.parseDataLine.
  destruct (_ || _); [exact H|].
  destruct (JS.parseInt16 _) as [wcnt|]; [|exact H].
  destruct (wcnt <=? 0)%Z; [exact H|].
  destruct (Build.posKeyOf _) as [pk|]; [|exact H].
  pose proof (extractWords_good (Build.restFields line) wcnt) as G.
  set (ws := Build.extractWords (Build.restFields line) wcnt) in *.
  assert (A : forall l st0, (forall w, w ∈ l -> w ∈ ws) ->
              P (Build.dictionary st0) ->
              P (Build.dictionary
                   (foldl (Build.addWord ws (Build.glossOf line) pk) st0 l))).
  { induction l as [|w l IH]; intros st0 Hl H0; simpl; [exact H0|].
    apply IH.
    - intros w' Hw'. apply Hl. now apply list_elem_of_further.
    - apply Pword; [exact G | apply Hl, list_elem_of_here
                    | apply glossOf_trimmed | exact H0]. }
  apply A; auto.
Qed.

Lemma addWord_sensesUnder ws g pk st w k r :
  sensesUnder (Build.dictionary (Build.addWord ws g pk st w)) k r ->
  sensesUnder (Build.dictionary st) k r \/
  (k = Build.normalize w /\ r = senseFor ws g w).
Proof.
  intros (e & p & rs & Hk & Hp & Hr).
  rewrite addWord_dictionary in Hk.
  destruct (Build.dictionary st !! Build.normalize w) as [e0|] eqn:E.
  - destruct (decide (Build.normalize w = k)) as [Ek|N]; [subst k|].
    + rewrite lookup_insert_eq in Hk. injection Hk as <-.
      destruct (decide (pk = p)) as [Ep|Np]; [subst p|].
      * rewrite lookup_insert_eq in Hp. injection Hp as <-.
        apply elem_of_app in Hr as [Hr|Hr].
        -- left. destruct (e0 !! pk) as [l|] eqn:P; simpl in Hr.
           ++ exists e0, pk, l. auto.
           ++ now apply elem_of_nil in Hr.
        -- right. split; [reflexivity|]. now apply list_elem_of_singleton in Hr.
      * rewrite lookup_insert_ne in Hp by exact Np.
        left. exists e0, p, rs. auto.
    + rewrite lookup_insert_ne in Hk by exact N.
      left. exists e, p, rs. auto.
  - destruct (JS.inheritedName _).
    { left. exists e, p, rs. auto. }
    destruct (decide (Build.normalize w = k)) as [Ek|N]; [subst k|].
    + rewrite lookup_insert_eq in Hk. injection Hk as <-.
      apply lookup_singleton_Some in Hp as [_ <-].
      right. split; [reflexivity|]. now apply list_elem_of_singleton in Hr.
    + rewrite lookup_insert_ne in Hk by exact N.
      left. exists e, p, rs. auto.
Qed.

Lemma addWord_new_key ws g pk st w k :
  is_Some (Build.dictionary (Build.addWord ws g pk st w) !! k) ->
  is_Some (Build.dictionary st !! k) \/
  (k = Build.normalize w /\ JS.inheritedName k = false).
Proof.
  intros H. rewrite addWord_dictionary in H.
  destruct (Build.dictionary st !! Build.normalize w) as [e0|] eqn:E.
  - destruct (decide (Build.normalize w = k)) as [Ek|N]; [subst k|].
    + left. eauto.
    + rewrite lookup_insert_ne in H by exact N. now left.
  - destruct (JS.inheritedName (Build.normalize w)) eqn:I; [now left|].
    destruct (decide (Build.normalize w = k)) as [Ek|N]; [subst k|].
    + right. auto.
    + rewrite lookup_insert_ne in H by exact N. now left.
Qed.

(** Keys are lowercased words. *)
Lemma keys_normalized fs k :
  is_Some (Build.artifact fs !! k) ->
  k <> "" /\ JS.toLowerCase k = k /\ hasUnderscore k = false /\
  JS.inheritedName k = false.
Proof.
  set (P := fun d : Build.lexicon => forall k, is_Some (d !! k) ->
              k <> "" /\ JS.toLowerCase k = k /\ hasUnderscore k = false /\
              JS.inheritedName k = false).
  revert k. change (P (Build.artifact fs)).
  apply artifact_invariant.
  - intros k [x Hx]. now rewrite lookup_empty in Hx.
  - apply (line_invariant P). intros ws g pk st w G Hw _ H k Hk.
    destruct (addWord_new_key _ _ _ _ _ _ Hk) as [Ho|[-> I]]; [now apply H|].
    rewrite Forall_forall in G. destruct (G w Hw) as [Hne Hu].
    unfold Build.normalize in *. repeat split.
    + intros E. now apply toLowerCase_empty in E.
    + apply toLowerCase_idem.
    + now rewrite hasUnderscore_toLowerCase.
    + exact I.
Qed.

Lemma senses_shape fs k r :
  sensesUnder (Build.artifact fs) k r ->
  exists ws g w,
    Forall goodWord ws /\ w ∈ ws /\ JS.trim g = g /\
    k = JS.toLowerCase w /\ r = senseFor ws g w.
Proof.
  set (P := fun d : Build.lexicon => forall k r, sensesUnder d k r ->
              exists ws g w,
                Forall goodWord ws /\ w ∈ ws /\ JS.trim g = g /\
                k = JS.toLowerCase w /\ r = senseFor ws g w).
  revert k r. change (P (Build.artifact fs)).
  apply artifact_invariant.
  - intros k r (e & pk & rs & Hk & _). now rewrite lookup_empty in Hk.
  - apply (line_invariant P). intros ws g pk st w G Hw Hg H k r Hr.
    destruct (addWord_sensesUnder _ _ _ _ _ _ _ Hr) as [Ho|[-> ->]]; [now apply H|].
    exists ws, g, w. auto.
Qed.

End RunInvariants.

(** X1.  Every top-level key of the compiled artifact is a non-empty
    string that is its own lowercased form, has no underscore, and is not a
    name inherited from [Object.prototype]. *)
Theorem artifact_keys_are_lowercased_words (fs : Build.files) (k : string)
    (Hk : is_Some (Build.artifact fs !! k)) :
  k <> "" /\ JS.toLowerCase k = k /\ hasUnderscore k = false /\
  JS.inheritedName k = false.
Proof.
  destruct (keys_normalized fs k Hk) as (H1 & H2 & H3 & H4).
  repeat split; assumption.
Qed.

Lemma artifact_keys_are_lowercased_words_witness :
  "city of light" <> "" /\ JS.toLowerCase "city of light" = "city of light" /\
  hasUnderscore "city of light" = false /\
  JS.inheritedName "city of light" = false.
Proof.
  apply (artifact_keys_are_lowercased_words nouns_only "city of light").
  vm_compute. eauto.
Defined.

(** X2.  In the compiled artifact no sense of a word lists the word itself
    among its synonyms, whatever the casing. *)
Theorem synonyms_exclude_the_word (fs : Build.files) (k : string)
    (e : gmap Build.posKey (list Build.sense)) (pk : Build.posKey)
    (rs : list Build.sense) (r : Build.sense) (s : string)
    (Hk : Build.artifact fs !! k = Some e)
    (Hpk : e !! pk = Some rs)
    (Hr : r ∈ rs)
    (Hs : s ∈ Build.synonyms r) :
  JS.toLowerCase s <> k.
Proof.
  destruct (senses_shape fs k r) as (ws & g & w & _ & _ & _ & -> & ->).
  { exists e, pk, rs. auto. }
  simpl in Hs. now apply list_elem_of_filter in Hs as [Hs _].
Qed.

Lemma synonyms_exclude_the_word_witness :
  JS.toLowerCase "City of Light" <> "paris".
Proof.
  apply (synonyms_exclude_the_word nouns_only "paris"
           {[ Build.noun :=
                [Build.Sense "the capital and largest city of France" ["City of Light"]] ]}
           Build.noun
           [Build.Sense "the capital and largest city of France" ["City of Light"]]
           (Build.Sense "the capital and largest city of France" ["City of Light"])
           "City of Light").
  - vm_compute. reflexivity.
  - vm_compute. reflexivity.
  - apply list_elem_of_here.
  - apply list_elem_of_here.
Defined.

(** X3.  Every sense record of the compiled artifact has a definition
    without leading or trailing white space, and synonyms that are
    non-empty and free of underscores. *)
Theorem senses_are_well_formed (fs : Build.files) (k : string)
    (e : gmap Build.posKey (list Build.sense)) (pk : Build.posKey)
    (rs : list Build.sense) (r : Build.sense)
    (Hk : Build.artifact fs !! k = Some e)
    (Hpk : e !! pk = Some rs)
    (Hr : r ∈ rs) :
  JS.trim (Build.definition r) = Build.definition r /\
  forall s, s ∈ Build.synonyms r -> s <> "" /\ hasUnderscore s = false.
Proof.
  destruct (senses_shape fs k r) as (ws & g & w & G & _ & Hg & _ & ->).
  { exists e, pk, rs. auto. }
  split; [exact Hg|]. intros s Hs. simpl in Hs.
  apply list_elem_of_filter in Hs as [_ Hs].
  rewrite Forall_forall in G. exact (G s Hs).
Qed.

Lemma senses_are_well_formed_witness :
  JS.trim "the capital and largest city of France"
  = "the capital and largest city of France" /\
  forall s, s ∈ ["City of Light"] -> s <> "" /\ hasUnderscore s = false.
Proof.
  apply (senses_are_well_formed nouns_only "paris"
           {[ Build.noun :=
                [Build.Sense "the capital and largest city of France" ["City of Light"]] ]}
           Build.noun
           [Build.Sense "the capital and largest city of France" ["City of Light"]]
           (Build.Sense "the capital and largest city of France" ["City of Light"])).
  - vm_compute. reflexivity.
  - vm_compute. reflexivity.
  - apply list_elem_of_here.
Defined.

Section Shape.

Lemma addWord_entries_nonempty ws g pk st w :
  (forall k e, Build.dictionary st !! k = Some e ->
     e <> ∅ /\ forall p rs, e !! p = Some rs -> rs <> []) ->
  forall k e, Build.dictionary (Build.addWord ws g pk st w) !! k = Some e ->
     e <> ∅ /\ forall p rs, e !! p = Some rs -> rs <> [].
Proof.
  intros H k e Hk. rewrite addWord_dictionary in Hk.
  destruct (Build.dictionary st !! Build.normalize w) as [e0|] eqn:E.
  - destruct (decide (Build.normalize w = k)) as [Ek|N]; [subst k|].
    + rewrite lookup_insert_eq in Hk. injection Hk as <-.
      split; [apply insert_non_empty|].
      intros p rs Hp. destruct (decide (pk = p)) as [Ep|Np]; [subst p|].
      * rewrite lookup_insert_eq in Hp. injection Hp as <-.
        intros Habs. apply app_eq_nil in Habs as [_ Habs]. discriminate.
      * rewrite lookup_insert_ne in Hp by exact Np.
        destruct (H _ _ E) as [_ H2]. exact (H2 p rs Hp).
    + rewrite lookup_insert_ne in Hk by exact N. exact (H k e Hk).
  - destruct (JS.inheritedName _); [exact (H k e Hk)|].
    destruct (decide (Build.normalize w = k)) as [Ek|N]; [subst k|].
    + rewrite lookup_insert_eq in Hk. injection Hk as <-.
      split; [apply insert_non_empty|].
      intros p rs Hp. apply lookup_singleton_Some in Hp as [_ <-]. discriminate.
    + rewrite lookup_insert_ne in Hk by exact N. exact (H k e Hk).
Qed.

Lemma entries_nonempty fs k e :
  Build.artifact fs !! k = Some e ->
  e <> ∅ /\ forall p rs, e !! p = Some rs -> rs <> [].
Proof.
  set (P := fun d : Build.lexicon => forall k e, d !! k = Some e ->
              e <> ∅ /\ forall p rs, e !! p = Some rs -> rs <> []).
  revert k e. change (P (Build.artifact fs)).
  apply artifact_invariant.
  - intros k e Hk. now rewrite lookup_empty in Hk.
  - apply (line_invariant P). intros ws g pk st w _ _ _ H.
    exact (addWord_entries_nonempty ws g pk st w H).
Qed.

End Shape.

(** X4.  In the compiled artifact every word has at least one part of
    speech, and every part-of-speech group has at least one sense: the
    script writes neither an empty entry nor an empty array. *)
Theorem entries_are_never_empty (fs : Build.files) (k : string)
    (e : gmap Build.posKey (list Build.sense))
    (Hk : Build.artifact fs !! k = Some e) :
  e <> ∅ /\ forall p rs, e !! p = Some rs -> rs <> [].
Proof.
  destruct (entries_nonempty fs k e Hk) as [H1 H2].
  split; [exact H1 | exact H2].
Qed.

Lemma entries_are_never_empty_witness :
  ({[ Build.noun :=
        [Build.Sense "the capital and largest city of France" ["City of Light"]] ]}
     : gmap Build.posKey (list Build.sense)) <> ∅.
Proof.
  apply (entries_are_never_empty nouns_only "paris").
  vm_compute. reflexivity.
Defined.

Section Growth.

Lemma grows_refl d : grows d d.
Proof. split; [reflexivity|]. intros k p. reflexivity. Qed.

Lemma grows_trans d1 d2 d3 : grows d1 d2 -> grows d2 d3 -> grows d1 d3.
Proof.
  intros [D1 S1] [D2 S2]. split; [set_solver|].
  intros k p. etransitivity; [apply S1 | apply S2].
Qed.

Lemma addWord_grows ws g pk st w :
  grows (Build.dictionary st) (Build.dictionary (Build.addWord ws g pk st w)).
Proof.
  split.
  - intros k Hk. apply elem_of_dom. apply elem_of_dom in Hk.
    now apply addWord_keys.
  - intros k p.
    destruct (JS.inheritedName k) eqn:I.
    + destruct (Build.dictionary st !! k) as [e|] eqn:E.
      * rewrite addWord_sensesAt by (right; eauto). now apply prefix_app_r.
      * assert (N : Build.dictionary (Build.addWord ws g pk st w) !! k = None).
        { destruct (Build.dictionary (Build.addWord ws g pk st w) !! k) eqn:E';
            [|reflexivity].
          destruct (addWord_new_key ws g pk st w k) as [[x Hx]|[_ Hi]];
            [eauto | congruence | congruence]. }
        unfold sensesAt. rewrite E, N. reflexivity.
    + rewrite addWord_sensesAt by (now left). now apply prefix_app_r.
Qed.

Lemma parseDataLine_grows st line :
  grows (Build.dictionary st) (Build.dictionary (Build.parseDataLine st line)).
Proof.
  unfold Build.parseDataLine.
  destruct (_ || _); [apply grows_refl|].
  destruct (JS.parseInt16 _) as [wcnt|]; [|apply grows_refl].
  destruct (wcnt <=? 0)%Z; [apply grows_refl|].
  destruct (Build.posKeyOf _) as [pk|]; [|apply grows_refl].
  generalize (Build.extractWords (Build.restFields line) wcnt) at 1 as ws.
  intros ws.
  generalize (Build.extractWords (Build.restFields line) wcnt) as l.
  intros l. revert st.
  induction l as [|w l IH]; intros st; simpl; [apply grows_refl|].
  eapply grows_trans; [apply addWord_grows | apply IH].
Qed.

Lemma parseDataFile_grows fs st pos :
  grows (Build.dictionary st) (Build.dictionary (Build.parseDataFile fs st pos)).
Proof.
  unfold Build.parseDataFile. destruct (fs !! _) as [text|]; [|apply grows_refl].
  generalize (JS.splitLines text) as lines. intros lines. revert st.
  induction lines as [|line lines IH]; intros st; simpl; [apply grows_refl|].
  eapply grows_trans; [apply parseDataLine_grows | apply IH].
Qed.



End Growth.

(** X5.  Reading a data file only adds to the dictionary: every key stays,
    and under every key and part of speech the senses already there stay
    first and in their order (encounter order). *)
Theorem parseDataFile_only_appends (fs : Build.files) (st : Build.state)
    (pos : Build.posKey) (k : string) (p : Build.posKey) :
  dom (Build.dictionary st) ⊆ dom (Build.dictionary (Build.parseDataFile fs st pos)) /\
  sensesAt (Build.dictionary st) k p
    `prefix_of` sensesAt (Build.dictionary (Build.parseDataFile fs st pos)) k p.
Proof.
  destruct (parseDataFile_grows fs st pos) as [D S]. split; [exact D | apply S].
Qed.


(** X7.  The run reads the four data files and nothing else: two file
    systems that agree on them give the same dictionary and the same
    messages.  In particular the index files have no effect. *)
Theorem run_reads_only_the_data_files (fs fs' : Build.files)
    (H : forall pos, fs !! Build.dataPath pos = fs' !! Build.dataPath pos) :
  Build.main fs = Build.main fs'.
Proof.
  unfold Build.main. cbn [foldl]. unfold Build.parseDataFile.
  now rewrite !H.
Qed.

Lemma run_reads_only_the_data_files_witness :
  Build.main (<["index.noun" := "paris n 1 0 1 0 00000004"]> nouns_only)
  = Build.main nouns_only.
Proof.
  apply run_reads_only_the_data_files.
  intros []; reflexivity.
Defined.



Section Mutual.

Lemma sensesAt_elem (d : Build.lexicon) k p r :
  r ∈ sensesAt d k p <->
  exists e rs, d !! k = Some e /\ e !! p = Some rs /\ r ∈ rs.
Proof.
  unfold sensesAt. split.
  - destruct (d !! k) as [e|]; simpl; [|intros H; now apply elem_of_nil in H].
    destruct (e !! p) as [rs|] eqn:E; simpl; [|intros H; now apply elem_of_nil in H].
    intros H. exists e, rs. auto.
  - intros (e & rs & -> & Hp & Hr). simpl. now rewrite Hp.
Qed.

Lemma parseDataLine_cases st line :
  Build.parseDataLine st line = st \/
  exists ws g pk,
    Forall goodWord ws /\
    Build.parseDataLine st line = foldl (Build.addWord ws g pk) st ws.
Proof.
  unfold Build.parseDataLine.
  destruct (_ || _); [now left|].
  destruct (JS.parseInt16 _) as [wcnt|]; [|now left].
  destruct (wcnt <=? 0)%Z; [now left|].
  destruct (Build.posKeyOf _) as [pk|]; [|now left].
  right. exists (Build.extractWords (Build.restFields line) wcnt),
    (Build.glossOf line), pk.
  split; [apply extractWords_good | reflexivity].
Qed.

Lemma addWords_new_key ws g pk l st k :
  is_Some (Build.dictionary (foldl (Build.addWord ws g pk) st l) !! k) ->
  is_Some (Build.dictionary st !! k) \/ JS.inheritedName k = false.
Proof.
  revert st. induction l as [|w l IH]; intros st H; simpl in H; [now left|].
  destruct (IH _ H) as [H1|H1]; [|now right].
  destruct (addWord_new_key _ _ _ _ _ _ H1) as [H2|[_ H2]]; [now left | now right].
Qed.

Lemma addWords_grows ws g pk l st :
  grows (Build.dictionary st) (Build.dictionary (foldl (Build.addWord ws g pk) st l)).
Proof.
  revert st. induction l as [|w l IH]; intros st; simpl; [apply grows_refl|].
  eapply grows_trans; [apply addWord_grows | apply IH].
Qed.

Lemma addWords_mutual ws g pk st :
  Forall goodWord ws ->
  mutual (Build.dictionary st) ->
  mutual (Build.dictionary (foldl (Build.addWord ws g pk) st ws)).
Proof.
  intros G M k p r s Hr Hs Hc.
  set (d' := Build.dictionary (foldl (Build.addWord ws g pk) st ws)) in *.
  assert (Ck : JS.inheritedName k = false \/ is_Some (Build.dictionary st !! k)).
  { apply sensesAt_elem in Hr as (e & rs & He & _).
    destruct (addWords_new_key ws g pk ws st k) as [H|H]; [fold d'; eauto | | ];
      [now right | now left]. }
  unfold d' in Hr. rewrite (addWords_sensesAt ws g pk ws st k p Ck) in Hr.
  apply elem_of_app in Hr as [Hr|Hr].
  - destruct (M k p r s Hr Hs Hc) as (r' & w & Hr' & Hd & Hw & Hk).
    exists r', w. split; [|auto].
    destruct (addWords_grows ws g pk ws st) as [_ S].
    destruct (S (JS.toLowerCase s) p) as [ext Hext]. fold d' in Hext.
    rewrite Hext. apply elem_of_app. now left.
  - destruct (decide (pk = p)) as [Ep|Np]; [subst p | now apply elem_of_nil in Hr].
    apply list_elem_of_fmap in Hr as (w & -> & Hw).
    apply list_elem_of_filter in Hw as [Hk Hw]. subst k.
    simpl in Hs. apply list_elem_of_filter in Hs as [Hsw Hs].
    rewrite Forall_forall in G. destruct (G s Hs) as [_ Us].
    assert (Is : JS.inheritedName (JS.toLowerCase s) = false).
    { destruct (JS.inheritedName (JS.toLowerCase s)) eqn:I; [|reflexivity].
      now apply inherited_lowercase in I. }
    exists (senseFor ws g s), w. split; [|split; [reflexivity|split]].
    + unfold d'. rewrite addWords_sensesAt by (now left).
      apply elem_of_app. right. rewrite decide_True by reflexivity.
      apply list_elem_of_fmap. exists s. split; [reflexivity|].
      apply list_elem_of_filter. auto.
    + simpl. apply list_elem_of_filter. split; [congruence | exact Hw].
    + reflexivity.
Qed.

Lemma artifact_mutual fs : mutual (Build.artifact fs).
Proof.
  apply artifact_invariant.
  - intros k p r s Hr. unfold sensesAt in Hr. rewrite lookup_empty in Hr.
    now apply elem_of_nil in Hr.
  - intros st line M.
    destruct (parseDataLine_cases st line) as [->|(ws & g & pk & G & ->)];
      [exact M | now apply addWords_mutual].
Qed.

End Mutual.

(** X9.  Synonymy in the compiled artifact is mutual.  When a sense of the
    word [k] lists the synonym [s], and the lowercased [s] is not
    [constructor], then the lowercased [s] is a key that has, as the same
    part of speech, a sense with the same definition among whose synonyms
    is a spelling of [k]. *)
Theorem synonyms_are_mutual (fs : Build.files) (k : string)
    (e : gmap Build.posKey (list Build.sense)) (pk : Build.posKey)
    (rs : list Build.sense) (r : Build.sense) (s : string)
    (Hk : Build.artifact fs !! k = Some e)
    (Hpk : e !! pk = Some rs)
    (Hr : r ∈ rs)
    (Hs : s ∈ Build.synonyms r)
    (Hc : JS.toLowerCase s <> "constructor") :
  exists e' rs' r' w,
    Build.artifact fs !! JS.toLowerCase s = Some e' /\
    e' !! pk = Some rs' /\ r' ∈ rs' /\
    Build.definition r' = Build.definition r /\
    w ∈ Build.synonyms r' /\ JS.toLowerCase w = k.
Proof.
  destruct (artifact_mutual fs k pk r s) as (r' & w & Hr' & Hd & Hw & Hkw).
  - apply sensesAt_elem. eauto.
  - exact Hs.
  - exact Hc.
  - apply sensesAt_elem in Hr' as (e' & rs' & He' & Hrs' & Hr').
    exists e', rs', r', w. auto 10.
Qed.

Lemma synonyms_are_mutual_witness :
  exists e' rs' r' w,
    Build.artifact nouns_only !! "city of light" = Some e' /\
    e' !! Build.noun = Some rs' /\ r' ∈ rs' /\
    Build.definition r' = "the capital and largest city of France" /\
    w ∈ Build.synonyms r' /\ JS.toLowerCase w = "paris".
Proof.
  apply (synonyms_are_mutual nouns_only "paris"
           {[ Build.noun :=
                [Build.Sense "the capital and largest city of France" ["City of Light"]] ]}
           Build.noun
           [Build.Sense "the capital and largest city of France" ["City of Light"]]
           (Build.Sense "the capital and largest city of France" ["City of Light"])
           "City of Light").
  - vm_compute. reflexivity.
  - vm_compute. reflexivity.
  - apply list_elem_of_here.
  - apply list_elem_of_here.
  - vm_compute. discriminate.
Defined.

(** * Further properties of the client *)

Section Session.

Lemma noAdjacent_snoc h t :
  noAdjacent h -> last h <> Some t -> noAdjacent (h ++ [t]).
Proof.
  induction h as [|x r IH]; intros N L; simpl; [auto|].
  destruct N as [Nx Nr]. destruct r as [|y r'].
  - simpl in *. split; [congruence | auto].
  - split; [exact Nx|]. apply IH; [exact Nr | exact L].
Qed.

Lemma noAdjacent_tail h : noAdjacent h -> noAdjacent (tail h).
Proof. destruct h as [|x r]; simpl; [auto | now intros [_ H]]. Qed.

Lemma appended_noAdjacent h t :
  noAdjacent h -> last h <> Some t -> noAdjacent (appended h t).
Proof.
  intros N L. unfold appended.
  destruct (100 <? length (h ++ [t]))%nat.
  - now apply noAdjacent_tail, noAdjacent_snoc.
  - now apply noAdjacent_snoc.
Qed.

Lemma pushHistory_index term st :
  term <> "" -> App.historyIndex (App.pushHistory term st) = (-1)%Z.
Proof.
  intros T. apply truthy_true in T. unfold App.pushHistory. now rewrite T.
Qed.

Lemma pushHistory_empty st : App.pushHistory "" st = st.
Proof. reflexivity. Qed.

Lemma sessionInv_fields st st' :
  App.history st' = App.history st ->
  App.historyRef st' = App.historyRef st ->
  App.historyIndex st' = App.historyIndex st ->
  sessionInv st -> sessionInv st'.
Proof.
  unfold sessionInv, cursorOk. intros -> -> ->. auto.
Qed.

Lemma pushHistory_sessionInv term st :
  sessionInv st -> sessionInv (App.pushHistory term st).
Proof.
  intros I. destruct (decide (term = "")) as [->|T]; [exact I|].
  destruct I as (M & N & C). unfold sessionInv, cursorOk.
  split; [now apply pushHistory_history|].
  rewrite pushHistory_index by exact T.
  rewrite pushHistory_historyRef.
  destruct (decide _) as [D|D].
  - split; [exact N | lia].
  - split; [|lia]. apply appended_noAdjacent; [exact N|].
    intros L. apply D. now right.
Qed.

Lemma doSearch_sessionInv word0 dict0 w st :
  sessionInv st -> sessionInv (App.doSearch word0 dict0 w st).
Proof.
  intros I. unfold App.doSearch.
  destruct (JS.truthy (App.termOf w word0)).
  - destruct dict0 as [d|].
    + destruct (App.lookupEntry d (App.termOf w word0));
        apply pushHistory_sessionInv;
        now apply (sessionInv_fields st).
    + now apply (sessionInv_fields st).
  - now apply (sessionInv_fields st).
Qed.

Lemma onKey_sessionInv key focused st :
  sessionInv st -> sessionInv (App.onKey key focused st).
Proof.
  intros I. unfold App.onKey.
  destruct (String.eqb key "Enter").
  { destruct focused; [now apply doSearch_sessionInv | exact I]. }
  destruct (String.eqb key "Escape"); [now apply (sessionInv_fields st)|].
  destruct I as (M & N & C). unfold cursorOk in C.
  destruct (String.eqb key "ArrowUp").
  { destruct (length (App.historyRef st) =? 0)%nat; [now repeat split|].
    destruct (Z.ltb_spec (App.historyIndex st)
                (Z.of_nat (length (App.historyRef st)) - 1));
      unfold sessionInv, cursorOk; simpl; repeat split; auto; lia. }
  destruct (String.eqb key "ArrowDown"); [|now repeat split].
  destruct (length (App.historyRef st) =? 0)%nat; [now repeat split|].
  destruct (Z.gtb_spec (App.historyIndex st) 0);
    unfold sessionInv, cursorOk; simpl; repeat split; auto; lia.
Qed.

Lemma step_sessionInv st e : sessionInv st -> sessionInv (App.step st e).
Proof.
  intros I. destruct e as [json| |key focused|v| |syn]; simpl.
  - now apply (sessionInv_fields st).
  - now apply (sessionInv_fields st).
  - now apply onKey_sessionInv.
  - now apply (sessionInv_fields st).
  - now apply doSearch_sessionInv.
  - unfold App.onClickSynonym. apply doSearch_sessionInv.
    now apply (sessionInv_fields st).
Qed.

Lemma run_sessionInv es : sessionInv (App.run es).
Proof.
  unfold App.run.
  assert (G : forall st, sessionInv st -> sessionInv (foldl App.step st es)).
  { induction es as [|e es IH]; intros st I; simpl; [exact I|].
    apply IH, step_sessionInv, I. }
  apply G. unfold sessionInv, cursorOk. simpl. repeat split; lia.
Qed.

(** One press of ArrowUp on a non-empty history, from a cursor in range. *)
Lemma arrowUp_step focused st :
  App.historyRef st <> [] ->
  cursorOk st ->
  let n := Z.of_nat (length (App.historyRef st)) in
  let st' := App.onKey "ArrowUp" focused st in
  App.historyIndex st' = Z.min (App.historyIndex st + 1) (n - 1) /\
  App.historyRef st' = App.historyRef st /\
  App.historyRef st !! Z.to_nat (n - 1 - App.historyIndex st') = Some (App.word st').
Proof.
  intros Hne C. unfold cursorOk in C. cbv zeta. unfold App.onKey. simpl.
  destruct (App.historyRef st) as [|x h] eqn:Eh; [contradiction|].
  cbn [length Nat.eqb]. rewrite <- Eh in *. clear Hne.
  set (n := Z.of_nat (length (App.historyRef st))) in *.
  assert (Hn : (0 < n)%Z) by (unfold n; rewrite Eh; simpl; lia).
  assert (L : forall i, (0 <= i < n)%Z ->
            App.historyRef st !! Z.to_nat i
            = Some (default "" (App.at_index (App.historyRef st) i))).
  { intros i Hi. unfold App.at_index.
    destruct (Z.ltb_spec i 0); [lia|].
    destruct (lookup_lt_is_Some_2 (App.historyRef st) (Z.to_nat i)) as [y Hy];
      [unfold n in Hi; lia|].
    now rewrite Hy. }
  replace (Z.of_nat (S (length h))) with n by (unfold n; rewrite Eh; reflexivity).
  destruct (Z.ltb_spec (App.historyIndex st) (n - 1)); simpl.
  - split; [lia|]. split; [reflexivity|]. apply L. lia.
  - split; [lia|]. split; [reflexivity|]. apply L. lia.
Qed.

End Session.

(** X10.  Whatever the user does, the history kept in the component state
    is equal to the array the handlers read ([historyRef.current]). *)
Theorem history_mirror_stays_in_sync (es : list App.event) :
  App.history (App.run es) = App.historyRef (App.run es).
Proof.
  destruct (run_sessionInv es) as (M & _ & _).
  exact M.
Qed.

(** X11.  Whatever the user does, no two neighbouring entries of the
    history are equal. *)
Theorem history_has_no_adjacent_duplicates (es : list App.event) :
  noAdjacent (App.historyRef (App.run es)).
Proof.
  destruct (run_sessionInv es) as (_ & N & _).
  exact N.
Qed.

(** X12.  Whatever the user does, the recall cursor is -1 or the position
    of an entry; so ArrowUp on a non-empty history always puts an entry of
    the history in the query field (the fallback to the empty string is
    never taken). *)
Theorem recall_cursor_stays_in_range (es : list App.event) (focused : bool) :
  cursorOk (App.run es) /\
  (App.historyRef (App.run es) <> [] ->
   App.word (App.step (App.run es) (App.KeyDown "ArrowUp" focused))
     ∈ App.historyRef (App.run es)).
Proof.
  destruct (run_sessionInv es) as (_ & _ & C). split; [exact C|].
  intros Hne. destruct (arrowUp_step focused _ Hne C) as (_ & _ & L).
  cbv zeta in L. simpl. eapply list_elem_of_lookup_2. exact L.
Qed.

Lemma recall_cursor_stays_in_range_witness :
  App.word
    (App.step
       (App.run [App.Loaded ∅; App.ClickSynonym "Cat"; App.ClickSynonym "dog"])
       (App.KeyDown "ArrowUp" true))
  ∈ App.historyRef
      (App.run [App.Loaded ∅; App.ClickSynonym "Cat"; App.ClickSynonym "dog"]).
Proof.
  apply (recall_cursor_stays_in_range
           [App.Loaded ∅; App.ClickSynonym "Cat"; App.ClickSynonym "dog"] true).
  vm_compute. discriminate.
Defined.

Section BeforeLoad.

Lemma step_before_load st e :
  notLoaded e ->
  App.dictionary st = None /\ App.historyRef st = [] /\ App.history st = [] /\
  App.result st = None ->
  App.dictionary (App.step st e) = None /\ App.historyRef (App.step st e) = [] /\
  App.history (App.step st e) = [] /\ App.result (App.step st e) = None.
Proof.
  intros Hn (D & H & H' & R).
  destruct e as [json| |key focused|v| |syn]; simpl; [contradiction | auto | | auto | | ].
  - unfold App.onKey.
    destruct (String.eqb key "Enter").
    { destruct focused; simpl; auto. }
    destruct (String.eqb key "Escape"); [simpl; auto|].
    rewrite H. simpl.
    destruct (String.eqb key "ArrowUp"); [auto|].
    destruct (String.eqb key "ArrowDown"); auto.
  - unfold App.doSearch. rewrite D.
    destruct (JS.truthy _); simpl; auto.
  - unfold App.onClickSynonym, App.doSearch. simpl. rewrite D.
    destruct (JS.truthy _); simpl; auto.
Qed.

End BeforeLoad.

(** X13.  As long as the artifact has not arrived (still loading, or the
    fetch failed), whatever the user does leaves the history empty and shows
    no result. *)
Theorem nothing_is_searched_before_load (es : list App.event)
    (H : Forall notLoaded es) :
  App.dictionary (App.run es) = None /\
  App.historyRef (App.run es) = [] /\
  App.history (App.run es) = [] /\
  App.result (App.run es) = None.
Proof.
  unfold App.run.
  assert (G : forall st,
             App.dictionary st = None /\ App.historyRef st = [] /\
             App.history st = [] /\ App.result st = None ->
             App.dictionary (foldl App.step st es) = None /\
             App.historyRef (foldl App.step st es) = [] /\
             App.history (foldl App.step st es) = [] /\
             App.result (foldl App.step st es) = None).
  { induction H as [|e es He Hes IH]; intros st I; simpl; [exact I|].
    apply IH. now apply step_before_load. }
  apply G. simpl. auto.
Qed.

Lemma nothing_is_searched_before_load_witness :
  let es := [App.LoadFailed; App.Change "cat"; App.ClickSearch;
             App.ClickSynonym "dog"; App.KeyDown "ArrowUp" true] in
  App.dictionary (App.run es) = None /\
  App.historyRef (App.run es) = [] /\
  App.history (App.run es) = [] /\
  App.result (App.run es) = None.
Proof.
  cbv zeta. apply nothing_is_searched_before_load.
  repeat constructor.
Defined.

(** X14.  The Enter key never looks a word up.  The key handler is
    registered once and calls the [doSearch] of the first render, which
    sees an empty query field: with the input focused, Enter shows the
    validation error and clears the result, whatever was typed and whatever
    is loaded; history, cursor and query field stay as they are.  Without
    focus Enter does nothing. *)
Theorem enter_key_never_looks_up (st : App.state) :
  let st' := App.step st (App.KeyDown "Enter" true) in
  App.error st' = "Please enter a word." /\
  App.result st' = None /\
  App.historyRef st' = App.historyRef st /\
  App.history st' = App.history st /\
  App.historyIndex st' = App.historyIndex st /\
  App.word st' = App.word st /\
  App.step st (App.KeyDown "Enter" false) = st.
Proof. cbv zeta. repeat split; reflexivity. Qed.

(** X15.  Pushing the same term twice is the same as pushing it once. *)
Theorem pushHistory_is_idempotent (term : string) (st : App.state) :
  App.pushHistory term (App.pushHistory term st) = App.pushHistory term st.
Proof.
  destruct (decide (term = "")) as [->|T]; [reflexivity|].
  assert (L : last (App.historyRef (App.pushHistory term st)) = Some term).
  { rewrite pushHistory_historyRef.
    destruct (decide _) as [[D|D]|D]; [contradiction | exact D | apply appended_last]. }
  rewrite <- at_index_last in L.
  pose proof (pushHistory_index term st T) as I.
  assert (Hlen : App.historyRef (App.pushHistory term st) <> []).
  { intros E. rewrite E in L. discriminate L. }
  apply truthy_true in T.
  unfold App.pushHistory at 1. rewrite T. cbn [negb].
  rewrite L, bool_decide_eq_true_2 by reflexivity.
  destruct (App.historyRef (App.pushHistory term st)) as [|x h];
    [contradiction|].
  cbn [length Nat.eqb negb orb].
  destruct (App.pushHistory term st) as [d l w r e h1 h2 hi n].
  simpl in I. subst hi. reflexivity.
Qed.

Section Recall.

Lemma presses_S key n st :
  presses key (S n) st = App.onKey key false (presses key n st).
Proof. reflexivity. Qed.

Lemma doSearch_last word0 d w st :
  App.termOf w word0 <> "" ->
  last (App.historyRef (App.doSearch word0 (Some d) w st)) = Some (App.termOf w word0) /\
  App.historyIndex (App.doSearch word0 (Some d) w st) = (-1)%Z.
Proof.
  intros T. split.
  - rewrite doSearch_historyRef.
    destruct (decide _) as [[D|D]|D]; [contradiction | exact D | apply appended_last].
  - unfold App.doSearch. rewrite (proj2 (truthy_true _) T). simpl.
    destruct (App.lookupEntry d (App.termOf w word0)); now apply pushHistory_index.
Qed.

Lemma query_normalized_helper word0 (d : App.lexicon) w st e :
  App.termOf w word0 <> "" ->
  d !! App.termOf w word0 = Some e ->
  App.result (App.doSearch word0 (Some d) w st) = Some (App.Entry e) /\
  App.error (App.doSearch word0 (Some d) w st) = "" /\
  App.word (App.doSearch word0 (Some d) w st) = App.word st.
Proof.
  intros T He.
  unfold App.doSearch. rewrite (proj2 (truthy_true _) T). simpl.
  unfold App.lookupEntry. rewrite He.
  unfold App.pushHistory. rewrite (proj2 (truthy_true _) T). simpl.
  destruct (_ || _); repeat split; reflexivity.
Qed.

End Recall.

(** X16.  From a fresh cursor on a non-empty history of [n] entries,
    [k + 1] presses of ArrowUp put the entry [min k (n - 1)] places before
    the newest one in the query field: each press goes one entry back, and
    at the oldest entry further presses stay there. *)
Theorem arrow_up_walks_back_and_stops (k : nat) (st : App.state)
    (Hne : App.historyRef st <> [])
    (Hi : App.historyIndex st = (-1)%Z) :
  let n := length (App.historyRef st) in
  let st' := presses "ArrowUp" (S k) st in
  App.historyIndex st' = Z.of_nat (Nat.min k (n - 1)) /\
  App.historyRef st' = App.historyRef st /\
  App.historyRef st !! (n - 1 - Nat.min k (n - 1))%nat = Some (App.word st').
Proof.
  cbv zeta.
  assert (Hn : 0 < length (App.historyRef st)).
  { destruct (App.historyRef st); [contradiction | simpl; lia]. }
  induction k as [|k IH].
  - rewrite presses_S. change (presses "ArrowUp" 0 st) with st.
    destruct (arrowUp_step false st Hne) as (A & B & C).
    { unfold cursorOk. lia. }
    cbv zeta in A, B, C. rewrite A in C. rewrite A, Hi.
    split; [lia|]. split; [exact B|].
    rewrite <- C. f_equal. lia.
  - destruct IH as (I1 & I2 & I3).
    rewrite presses_S.
    set (s1 := presses "ArrowUp" (S k) st) in *.
    destruct (arrowUp_step false s1) as (A & B & C).
    { now rewrite I2. }
    { unfold cursorOk. rewrite I1, I2. lia. }
    cbv zeta in A, B, C. rewrite I2 in A, B, C. rewrite A in C. rewrite A, I1.
    split; [lia|]. split; [exact B|].
    rewrite <- C. f_equal. lia.
Qed.

Lemma arrow_up_walks_back_and_stops_witness :
  let st := App.setHistoryRef ["ant"; "bee"; "cat"] App.initial in
  App.historyIndex (presses "ArrowUp" 7 st) = 2%Z /\
  App.historyRef (presses "ArrowUp" 7 st) = ["ant"; "bee"; "cat"] /\
  ["ant"; "bee"; "cat"] !! 0%nat = Some (App.word (presses "ArrowUp" 7 st)).
Proof.
  cbv zeta.
  apply (arrow_up_walks_back_and_stops 6
           (App.setHistoryRef ["ant"; "bee"; "cat"] App.initial)).
  - discriminate.
  - reflexivity.
Defined.

(** X17.  ArrowUp right after a query that reached the lookup puts the
    searched term, as normalized, back in the query field. *)
Theorem arrow_up_after_search_recalls_the_term (word0 : string) (d : App.lexicon)
    (w : option string) (focused : bool) (st : App.state)
    (T : App.termOf w word0 <> "") :
  App.word (App.onKey "ArrowUp" focused (App.doSearch word0 (Some d) w st))
  = App.termOf w word0.
Proof.
  destruct (doSearch_last word0 d w st T) as [L I].
  set (s1 := App.doSearch word0 (Some d) w st) in *.
  assert (Hne : App.historyRef s1 <> []).
  { intros E. rewrite E in L. discriminate L. }
  destruct (arrowUp_step focused s1 Hne) as (A & _ & C).
  { unfold cursorOk. rewrite I.
    destruct (App.historyRef s1); [contradiction | simpl; lia]. }
  cbv zeta in A, C. rewrite A, I in C.
  rewrite last_lookup in L.
  assert (E : Z.to_nat (Z.of_nat (length (App.historyRef s1)) - 1
                        - Z.min (-1 + 1) (Z.of_nat (length (App.historyRef s1)) - 1))
              = pred (length (App.historyRef s1))).
  { destruct (App.historyRef s1); [contradiction | simpl length; lia]. }
  rewrite E, L in C. now injection C.
Qed.

Lemma arrow_up_after_search_recalls_the_term_witness :
  App.word (App.onKey "ArrowUp" true
              (App.doSearch "" (Some ∅) (Some "  Zebra ") App.initial))
  = "zebra".
Proof.
  apply (arrow_up_after_search_recalls_the_term "" ∅ (Some "  Zebra ") true App.initial).
  discriminate.
Defined.

(** X18.  A query finds an entry under the trimmed, lowercased input:
    when the loaded artifact has the key, the entry becomes the result, the
    error message is cleared, the term is the newest history entry and the
    cursor is reset. *)
Theorem query_finds_the_normalized_term (word0 : string) (d : App.lexicon)
    (w : option string) (st : App.state) (e : gmap Build.posKey (list Build.sense))
    (T : App.termOf w word0 <> "")
    (He : d !! App.termOf w word0 = Some e) :
  let st' := App.doSearch word0 (Some d) w st in
  App.result st' = Some (App.Entry e) /\
  App.error st' = "" /\
  last (App.historyRef st') = Some (App.termOf w word0) /\
  App.historyIndex st' = (-1)%Z.
Proof.
  cbv zeta. destruct (doSearch_last word0 d w st T) as [L I].
  destruct (query_normalized_helper word0 d w st e T He) as (R & E & _).
  auto.
Qed.

Lemma query_finds_the_normalized_term_witness :
  let e : gmap Build.posKey (list Build.sense) :=
    {[ Build.noun :=
         [Build.Sense "the capital and largest city of France" ["City of Light"]] ]} in
  let st' := App.doSearch " PARIS " (Some (Build.artifact nouns_only)) None App.initial in
  App.result st' = Some (App.Entry e) /\
  App.error st' = "" /\
  last (App.historyRef st') = Some "paris" /\
  App.historyIndex st' = (-1)%Z.
Proof.
  cbv zeta.
  apply (query_finds_the_normalized_term " PARIS " (Build.artifact nouns_only)
           None App.initial).
  - discriminate.
  - vm_compute. reflexivity.
Defined.

(** X19.  End to end: in a client that has loaded the artifact of a run, a
    click on a synonym shown for any sense finds an entry (never "No
    match."), provided the synonym has no leading or trailing white space
    and its lowercased form is not [constructor]. *)
Theorem synonym_click_finds_an_entry (fs : Build.files) (st : App.state)
    (k : string) (e : gmap Build.posKey (list Build.sense)) (pk : Build.posKey)
    (rs : list Build.sense) (r : Build.sense) (s : string)
    (Hd : App.dictionary st = Some (Build.artifact fs))
    (Hk : Build.artifact fs !! k = Some e)
    (Hpk : e !! pk = Some rs)
    (Hr : r ∈ rs)
    (Hs : s ∈ Build.synonyms r)
    (Ht : JS.trim s = s)
    (Hc : JS.toLowerCase s <> "constructor") :
  exists e',
    Build.artifact fs !! JS.toLowerCase s = Some e' /\
    App.result (App.step st (App.ClickSynonym s)) = Some (App.Entry e') /\
    App.error (App.step st (App.ClickSynonym s)) = "" /\
    App.word (App.step st (App.ClickSynonym s)) = s.
Proof.
  destruct (main_wellLinked fs r s) as [H|[e' He']].
  { exists k, e, pk, rs. auto. }
  { exact Hs. }
  { contradiction. }
  exists e'. split; [exact He'|].
  assert (Tm : App.termOf (Some s) (App.word (App.setWord s st)) = JS.toLowerCase s).
  { unfold App.termOf. simpl. now rewrite Ht. }
  assert (Tne : App.termOf (Some s) (App.word (App.setWord s st)) <> "").
  { rewrite Tm. apply (keys_normalized fs). eauto. }
  rewrite <- Tm in He'.
  simpl. unfold App.onClickSynonym.
  change (App.dictionary (App.setWord s st)) with (App.dictionary st).
  rewrite Hd.
  destruct (query_normalized_helper (App.word (App.setWord s st))
              (Build.artifact fs) (Some s) (App.setWord s st) e' Tne He')
    as (R & E & W).
  auto.
Qed.

Lemma synonym_click_finds_an_entry_witness :
  exists e',
    Build.artifact nouns_only !! "city of light" = Some e' /\
    App.result (App.step loaded_nouns (App.ClickSynonym "City of Light"))
    = Some (App.Entry e') /\
    App.error (App.step loaded_nouns (App.ClickSynonym "City of Light")) = "" /\
    App.word (App.step loaded_nouns (App.ClickSynonym "City of Light"))
    = "City of Light".
Proof.
  apply (synonym_click_finds_an_entry nouns_only loaded_nouns "paris"
           {[ Build.noun :=
                [Build.Sense "the capital and largest city of France" ["City of Light"]] ]}
           Build.noun
           [Build.Sense "the capital and largest city of France" ["City of Light"]]
           (Build.Sense "the capital and largest city of France" ["City of Light"])
           "City of Light").
  - reflexivity.
  - vm_compute. reflexivity.
  - vm_compute. reflexivity.
  - apply list_elem_of_here.
  - apply list_elem_of_here.
  - reflexivity.
  - vm_compute. discriminate.
Defined.

(** X20.  A non-empty term that is neither a key of the loaded artifact
    nor a name inherited from [Object.prototype] ends in the "No match."
    state: no result, that message, the term as newest history entry, the
    cursor reset; the query field is left as it was. *)
Theorem absent_term_gives_no_match (word0 : string) (d : App.lexicon)
    (w : option string) (st : App.state)
    (T : App.termOf w word0 <> "")
    (Hd : d !! App.termOf w word0 = None)
    (Hi : JS.inheritedName (App.termOf w word0) = false) :
  let st' := App.doSearch word0 (Some d) w st in
  App.result st' = None /\
  App.error st' = "No match." /\
  last (App.historyRef st') = Some (App.termOf w word0) /\
  App.historyIndex st' = (-1)%Z /\
  App.word st' = App.word st.
Proof.
  cbv zeta. destruct (doSearch_last word0 d w st T) as [L I].
  split; [|split; [|split; [exact L | split; [exact I|]]]];
    unfold App.doSearch; rewrite (proj2 (truthy_true _) T); simpl;
    rewrite (lookupEntry_absent _ _ Hd Hi);
    unfold App.pushHistory; rewrite (proj2 (truthy_true _) T); simpl;
    destruct (_ || _); reflexivity.
Qed.

Lemma absent_term_gives_no_match_witness :
  let st' := App.doSearch "" (Some (Build.artifact nouns_only)) (Some " Rome") App.initial in
  App.result st' = None /\
  App.error st' = "No match." /\
  last (App.historyRef st') = Some "rome" /\
  App.historyIndex st' = (-1)%Z /\
  App.word st' = "".
Proof.
  cbv zeta.
  apply (absent_term_gives_no_match "" (Build.artifact nouns_only) (Some " Rome")
           App.initial).
  - discriminate.
  - vm_compute. reflexivity.
  - reflexivity.
Defined.

(** X21.  ArrowDown undoes ArrowUp.  On a non-empty history, from a cursor
    that is in range and not at the oldest entry, ArrowUp followed by
    ArrowDown leaves the cursor where it was; the query field then holds the
    entry at the cursor, or the empty string when the cursor is "none". *)
Theorem arrow_down_undoes_arrow_up (f1 f2 : bool) (st : App.state)
    (Hne : App.historyRef st <> [])
    (C : cursorOk st)
    (Hroom : (App.historyIndex st < Z.of_nat (length (App.historyRef st)) - 1)%Z) :
  let st' := App.onKey "ArrowDown" f2 (App.onKey "ArrowUp" f1 st) in
  App.historyIndex st' = App.historyIndex st /\
  App.historyRef st' = App.historyRef st /\
  (App.historyIndex st = (-1)%Z -> App.word st' = "") /\
  ((0 <= App.historyIndex st)%Z ->
   App.historyRef st
     !! Z.to_nat (Z.of_nat (length (App.historyRef st)) - 1 - App.historyIndex st)
   = Some (App.word st')).
Proof.
  unfold cursorOk in C. cbv zeta. unfold App.onKey. simpl.
  destruct (App.historyRef st) as [|x h] eqn:Eh; [contradiction|].
  cbn [length Nat.eqb] in *.
  destruct (Z.ltb_spec (App.historyIndex st) (Z.of_nat (S (length h)) - 1)); [|lia].
  simpl. rewrite Eh. cbn [length Nat.eqb].
  destruct (Z.gtb_spec (App.historyIndex st + 1) 0); simpl.
  - split; [lia|]. split; [exact Eh|]. split; [lia|]. intros _.
    replace (App.historyIndex st + 1 - 1)%Z with (App.historyIndex st) by lia.
    unfold App.at_index.
    destruct (Z.ltb_spec (Z.of_nat (S (length h)) - 1 - App.historyIndex st) 0); [lia|].
    destruct (lookup_lt_is_Some_2 (x :: h)
                (Z.to_nat (Z.of_nat (S (length h)) - 1 - App.historyIndex st)))
      as [y Hy]; [simpl; lia|].
    now rewrite Hy.
  - split; [lia|]. split; [exact Eh|]. split; [reflexivity|]. lia.
Qed.

Lemma arrow_down_undoes_arrow_up_witness :
  let st := App.setHistoryIndex 0 (App.setHistoryRef ["ant"; "bee"; "cat"] App.initial) in
  let st' := App.onKey "ArrowDown" true (App.onKey "ArrowUp" true st) in
  App.historyIndex st' = App.historyIndex st /\
  App.historyRef st !! 2%nat = Some (App.word st').
Proof.
  cbv zeta.
  destruct (arrow_down_undoes_arrow_up true true
              (App.setHistoryIndex 0
                 (App.setHistoryRef ["ant"; "bee"; "cat"] App.initial)))
    as (H1 & _ & _ & H4).
  - discriminate.
  - unfold cursorOk. simpl. lia.
  - simpl. lia.
  - split; [exact H1|]. apply H4. simpl. lia.
Defined.

Section IndexFile.

Lemma ensure_dictionary key pos st :
  Build.dictionary (Build.ensurePos key pos (Build.ensureWord key st)) =
    match Build.dictionary st !! key with
    | Some e =>
        match e !! pos with
        | Some _ => Build.dictionary st
        | None => <[key := <[pos := []]> e]> (Build.dictionary st)
        end
    | None =>
        if JS.inheritedName key then Build.dictionary st
        else <[key := {[pos := []]}]> (Build.dictionary st)
    end.
Proof.
  destruct st as [d inh con].
  unfold Build.ensureWord, Build.resolve. simpl.
  destruct (d !! key) as [e|] eqn:E.
  - unfold Build.ensurePos, Build.props, Build.setProps, Build.resolve. simpl.
    rewrite E. simpl. destruct (e !! pos); simpl; rewrite ?E; reflexivity.
  - destruct (JS.inheritedName key) eqn:I.
    + unfold Build.ensurePos, Build.props, Build.setProps, Build.resolve. simpl.
      rewrite E, I. simpl.
      destruct (default ∅ (inh !! key) !! pos); simpl; rewrite ?E, ?I; reflexivity.
    + unfold Build.ensurePos, Build.props, Build.setProps, Build.resolve. simpl.
      repeat (rewrite ?lookup_insert_eq, ?insert_insert_eq, ?lookup_empty; simpl).
      reflexivity.
Qed.

Lemma ensure_sensesAt key pos st k p :
  sensesAt (Build.dictionary (Build.ensurePos key pos (Build.ensureWord key st))) k p
  = sensesAt (Build.dictionary st) k p.
Proof.
  rewrite ensure_dictionary. unfold sensesAt.
  destruct (Build.dictionary st !! key) as [e|] eqn:E.
  - destruct (e !! pos) as [l|] eqn:P; [reflexivity|].
    destruct (decide (key = k)) as [Ek|N]; [subst k|].
    + rewrite lookup_insert_eq, E. simpl.
      destruct (decide (pos = p)) as [Ep|Np]; [subst p|].
      * now rewrite lookup_insert_eq, P.
      * now rewrite lookup_insert_ne.
    + now rewrite lookup_insert_ne.
  - destruct (JS.inheritedName key); [reflexivity|].
    destruct (decide (key = k)) as [Ek|N]; [subst k|].
    + rewrite lookup_insert_eq, E. simpl.
      destruct (decide (pos = p)) as [Ep|Np]; [subst p|].
      * now rewrite lookup_singleton_eq.
      * now rewrite lookup_singleton_ne.
    + now rewrite lookup_insert_ne.
Qed.

Lemma parseIndexLine_sensesAt pos st line k p :
  sensesAt (Build.dictionary (Build.parseIndexLine pos st line)) k p
  = sensesAt (Build.dictionary st) k p.
Proof.
  unfold Build.parseIndexLine.
  destruct (_ || _); [reflexivity|].
  destruct (JS.split_ws line !! 0%nat) as [head|]; [|reflexivity].
  destruct (JS.truthy head); [apply ensure_sensesAt | reflexivity].
Qed.

End IndexFile.

(** X22.  [parseIndexFile], which the script defines and never calls, adds
    no sense: under every key and part of speech the senses after it are
    those before it (it can only add words without senses, or print the
    warning). *)
Theorem parseIndexFile_adds_no_sense (fs : Build.files) (pos : Build.posKey)
    (filePath : string) (st : Build.state) (k : string) (p : Build.posKey) :
  sensesAt (Build.dictionary (Build.parseIndexFile fs pos filePath st)) k p
  = sensesAt (Build.dictionary st) k p.
Proof.
  unfold Build.parseIndexFile. destruct (fs !! filePath) as [text|]; [|reflexivity].
  generalize (JS.splitLines text) as lines. intros lines. revert st.
  induction lines as [|line lines IH]; intros st; simpl; [reflexivity|].
  now rewrite IH, parseIndexLine_sensesAt.
Qed.
